(** * FF_LED: fixed, blinking and pulsing LED effects

    A shallow embedding of the [FF_LED] class (FF_LED.h / FF_LED.cpp) and the
    properties of its polling state machine.

    - [uint8_t] and [unsigned long] values are integers of [Z]; every place
      where the C++ code can wrap (the [ledBlinksDone++] counter, the
      [(uint8_t)] cast of the new pulse level, the subtraction of two
      [millis()] readings) carries its reduction modulo [2^8] or [2^32].
    - The object and the board it runs on (millisecond clock, pins) form one
      [World]; each method is a function from worlds to worlds.
    - [millis()] is an oracle: its k-th call returns the true time of that
      call reduced modulo [2^32].  Nothing is assumed about two successive
      readings, so the reading used by the due test of [loop()] and the one
      stored by [setLed()] may differ.
    - The [Serial.printf] traces of the setters are diagnostics only and are
      not part of the model. *)

From Stdlib Require Import ZArith List Bool Lia.
Import ListNotations.
Local Open Scope Z_scope.

(** ** Machine integers *)

Definition UINT8_MOD : Z := 256.
Definition ULONG_MOD : Z := 4294967296.

(** Conversion to [uint8_t] (the cast [(uint8_t) x]). *)
Definition to_uint8 (x : Z) : Z := x mod UINT8_MOD.

(** Conversion to [unsigned long], 32 bits wide on the Arduino targets. *)
Definition to_ulong (x : Z) : Z := x mod ULONG_MOD.

Definition is_uint8 (x : Z) : Prop := 0 <= x <= 255.
Definition is_ulong (x : Z) : Prop := 0 <= x < ULONG_MOD.

(** [#define FF_LED_WAIT_FOR_EVER (4294967295)] *)
Definition FF_LED_WAIT_FOR_EVER : Z := 4294967295.

(** ** The board: pins and clock *)

(** Arduino.h: pin states and pin modes. *)
Definition LOW : Z := 0.
Definition HIGH : Z := 1.

Inductive PinModeT : Type := INPUT | OUTPUT.

(** The calls the class makes on the pins, in the order they are made. *)
Inductive HwCall : Type :=
| digitalWrite (pin val : Z)
| analogWrite (pin val : Z)
| pinMode (pin : Z) (m : PinModeT).

(** What [digitalWrite(pin, val)] does to the pin: the Arduino cores drive it
    low for [LOW] and high for every other value. *)
Inductive PinState : Type := PinLow | PinHigh.

Definition pinStateOf (val : Z) : PinState :=
  if val =? LOW then PinLow else PinHigh.

(** The binary "off" write drives the pin low, the binary "on" write drives
    it high. *)
Definition isBinaryOff (c : HwCall) : Prop :=
  match c with
  | digitalWrite _ v => pinStateOf v = PinLow
  | _ => False
  end.

Definition isBinaryOn (c : HwCall) : Prop :=
  match c with
  | digitalWrite _ v => pinStateOf v = PinHigh
  | _ => False
  end.

(** ** The object *)

(** [enum ledModedType {fixed, blink, pulse}] *)
Inductive ledModedType : Type := fixed | blink | pulse.

Record FF_LED : Type := mkFF_LED {
  ledPin : Z;                 (* uint8_t *)
  ledReverted : bool;
  ledBlinksNeeded : Z;        (* uint8_t *)
  ledBlinksDone : Z;          (* uint8_t *)
  ledMinLevel : Z;            (* uint8_t *)
  ledMaxLevel : Z;            (* uint8_t *)
  ledLevel : Z;               (* uint8_t *)
  ledIncrease : bool;
  ledPulseIncrement : Z;      (* int8_t *)
  ledMode : ledModedType;
  ledOnDelay : Z;             (* unsigned long *)
  ledOffDelay : Z;            (* unsigned long *)
  ledWaitDelay : Z;           (* unsigned long *)
  ledDelay : Z;               (* unsigned long *)
  ledLastTimeChanged : Z      (* unsigned long *)
}.

Record World : Type := mkWorld {
  led : FF_LED;               (* the object's fields *)
  clock : nat -> Z;           (* true time, in ms, of the k-th call of millis() *)
  reads : nat;                (* calls of millis() made so far *)
  pins : list HwCall          (* calls made on the pins, oldest first *)
}.

(** Field assignments. *)
Module Assign.

Definition obj (f : FF_LED -> FF_LED) (w : World) : World :=
  mkWorld (f (led w)) (clock w) (reads w) (pins w).

Definition BlinksNeeded (v : Z) (o : FF_LED) : FF_LED :=
  mkFF_LED (ledPin o) (ledReverted o) v (ledBlinksDone o) (ledMinLevel o)
    (ledMaxLevel o) (ledLevel o) (ledIncrease o) (ledPulseIncrement o)
    (ledMode o) (ledOnDelay o) (ledOffDelay o) (ledWaitDelay o) (ledDelay o)
    (ledLastTimeChanged o).

Definition BlinksDone (v : Z) (o : FF_LED) : FF_LED :=
  mkFF_LED (ledPin o) (ledReverted o) (ledBlinksNeeded o) v (ledMinLevel o)
    (ledMaxLevel o) (ledLevel o) (ledIncrease o) (ledPulseIncrement o)
    (ledMode o) (ledOnDelay o) (ledOffDelay o) (ledWaitDelay o) (ledDelay o)
    (ledLastTimeChanged o).

Definition MinLevel (v : Z) (o : FF_LED) : FF_LED :=
  mkFF_LED (ledPin o) (ledReverted o) (ledBlinksNeeded o) (ledBlinksDone o) v
    (ledMaxLevel o) (ledLevel o) (ledIncrease o) (ledPulseIncrement o)
    (ledMode o) (ledOnDelay o) (ledOffDelay o) (ledWaitDelay o) (ledDelay o)
    (ledLastTimeChanged o).

Definition MaxLevel (v : Z) (o : FF_LED) : FF_LED :=
  mkFF_LED (ledPin o) (ledReverted o) (ledBlinksNeeded o) (ledBlinksDone o)
    (ledMinLevel o) v (ledLevel o) (ledIncrease o) (ledPulseIncrement o)
    (ledMode o) (ledOnDelay o) (ledOffDelay o) (ledWaitDelay o) (ledDelay o)
    (ledLastTimeChanged o).

Definition Level (v : Z) (o : FF_LED) : FF_LED :=
  mkFF_LED (ledPin o) (ledReverted o) (ledBlinksNeeded o) (ledBlinksDone o)
    (ledMinLevel o) (ledMaxLevel o) v (ledIncrease o) (ledPulseIncrement o)
    (ledMode o) (ledOnDelay o) (ledOffDelay o) (ledWaitDelay o) (ledDelay o)
    (ledLastTimeChanged o).

Definition Increase (v : bool) (o : FF_LED) : FF_LED :=
  mkFF_LED (ledPin o) (ledReverted o) (ledBlinksNeeded o) (ledBlinksDone o)
    (ledMinLevel o) (ledMaxLevel o) (ledLevel o) v (ledPulseIncrement o)
    (ledMode o) (ledOnDelay o) (ledOffDelay o) (ledWaitDelay o) (ledDelay o)
    (ledLastTimeChanged o).

Definition PulseIncrement (v : Z) (o : FF_LED) : FF_LED :=
  mkFF_LED (ledPin o) (ledReverted o) (ledBlinksNeeded o) (ledBlinksDone o)
    (ledMinLevel o) (ledMaxLevel o) (ledLevel o) (ledIncrease o) v
    (ledMode o) (ledOnDelay o) (ledOffDelay o) (ledWaitDelay o) (ledDelay o)
    (ledLastTimeChanged o).

Definition Mode (v : ledModedType) (o : FF_LED) : FF_LED :=
  mkFF_LED (ledPin o) (ledReverted o) (ledBlinksNeeded o) (ledBlinksDone o)
    (ledMinLevel o) (ledMaxLevel o) (ledLevel o) (ledIncrease o)
    (ledPulseIncrement o) v (ledOnDelay o) (ledOffDelay o) (ledWaitDelay o)
    (ledDelay o) (ledLastTimeChanged o).

Definition OnDelay (v : Z) (o : FF_LED) : FF_LED :=
  mkFF_LED (ledPin o) (ledReverted o) (ledBlinksNeeded o) (ledBlinksDone o)
    (ledMinLevel o) (ledMaxLevel o) (ledLevel o) (ledIncrease o)
    (ledPulseIncrement o) (ledMode o) v (ledOffDelay o) (ledWaitDelay o)
    (ledDelay o) (ledLastTimeChanged o).

Definition OffDelay (v : Z) (o : FF_LED) : FF_LED :=
  mkFF_LED (ledPin o) (ledReverted o) (ledBlinksNeeded o) (ledBlinksDone o)
    (ledMinLevel o) (ledMaxLevel o) (ledLevel o) (ledIncrease o)
    (ledPulseIncrement o) (ledMode o) (ledOnDelay o) v (ledWaitDelay o)
    (ledDelay o) (ledLastTimeChanged o).

Definition WaitDelay (v : Z) (o : FF_LED) : FF_LED :=
  mkFF_LED (ledPin o) (ledReverted o) (ledBlinksNeeded o) (ledBlinksDone o)
    (ledMinLevel o) (ledMaxLevel o) (ledLevel o) (ledIncrease o)
    (ledPulseIncrement o) (ledMode o) (ledOnDelay o) (ledOffDelay o) v
    (ledDelay o) (ledLastTimeChanged o).

Definition Delay (v : Z) (o : FF_LED) : FF_LED :=
  mkFF_LED (ledPin o) (ledReverted o) (ledBlinksNeeded o) (ledBlinksDone o)
    (ledMinLevel o) (ledMaxLevel o) (ledLevel o) (ledIncrease o)
    (ledPulseIncrement o) (ledMode o) (ledOnDelay o) (ledOffDelay o)
    (ledWaitDelay o) v (ledLastTimeChanged o).

Definition LastTimeChanged (v : Z) (o : FF_LED) : FF_LED :=
  mkFF_LED (ledPin o) (ledReverted o) (ledBlinksNeeded o) (ledBlinksDone o)
    (ledMinLevel o) (ledMaxLevel o) (ledLevel o) (ledIncrease o)
    (ledPulseIncrement o) (ledMode o) (ledOnDelay o) (ledOffDelay o)
    (ledWaitDelay o) (ledDelay o) v.

End Assign.

(** [millis()]: the current reading of the 32-bit millisecond counter. *)
Definition millis (w : World) : Z * World :=
  (to_ulong (clock w (reads w)),
   mkWorld (led w) (clock w) (S (reads w)) (pins w)).

(** One call on the pins. *)
Definition hw (c : HwCall) (w : World) : World :=
  mkWorld (led w) (clock w) (reads w) (pins w ++ [c]).

(** ** The methods *)

(** Constructor: the fields not assigned in its body keep the default member
    initialisers of the class declaration. *)
Definition FF_LED_new (_ledPin : Z) (_isReverted : bool) (_initialLevel : Z)
  : FF_LED :=
  {| ledPin := _ledPin;
     ledReverted := _isReverted;
     ledBlinksNeeded := 0;
     ledBlinksDone := 0;
     ledMinLevel := 0;
     ledMaxLevel := 255;
     ledLevel := _initialLevel;
     ledIncrease := false;
     ledPulseIncrement := 0;
     ledMode := fixed;
     ledOnDelay := 0;
     ledOffDelay := 0;
     ledWaitDelay := 0;
     ledDelay := 0;
     ledLastTimeChanged := 0 |}.

(** A board on which the object has just been constructed: no call of
    [millis()] yet, no call on the pins. *)
Definition power_on (clk : nat -> Z) (o : FF_LED) : World :=
  mkWorld o clk 0%nat [].

(** Destructor. *)
Definition FF_LED_delete (w : World) : World :=
  hw (pinMode (ledPin (led w)) INPUT) w.

(** [void FF_LED::setLed(uint8_t _level, unsigned long _delay)] *)
Definition setLed (_level _delay : Z) (w : World) : World :=
  let w := Assign.obj (Assign.Level _level) w in
  let w := Assign.obj (Assign.Delay _delay) w in
  let (now, w) := millis w in
  let w := Assign.obj (Assign.LastTimeChanged now) w in
  let o := led w in
  if ledLevel o =? 0 then
    hw (digitalWrite (ledPin o)
          (if ledReverted o then ledMaxLevel o else ledMinLevel o)) w
  else if ledLevel o =? 255 then
    hw (digitalWrite (ledPin o)
          (if ledReverted o then ledMinLevel o else ledMaxLevel o)) w
  else
    hw (analogWrite (ledPin o)
          (if ledReverted o then 255 - ledLevel o else ledLevel o)) w.

(** [void FF_LED::setBlink(uint8_t _blinkCount, unsigned long _onTime,
      unsigned long _offTime, unsigned long _waitTime, uint8_t _minLevel,
      uint8_t _maxLevel)] *)
Definition setBlink (_blinkCount _onTime _offTime _waitTime _minLevel _maxLevel : Z)
    (w : World) : World :=
  let w := Assign.obj (Assign.BlinksNeeded _blinkCount) w in
  let w := Assign.obj (Assign.OnDelay _onTime) w in
  let w := Assign.obj (Assign.OffDelay _offTime) w in
  let w := Assign.obj (Assign.WaitDelay _waitTime) w in
  let w := Assign.obj (Assign.MinLevel _minLevel) w in
  let w := Assign.obj (Assign.MaxLevel _maxLevel) w in
  let w := Assign.obj (Assign.BlinksDone 0) w in
  let w := Assign.obj (Assign.Mode blink) w in
  if negb (ledBlinksNeeded (led w) =? 0) then
    setLed (ledMaxLevel (led w)) (ledOnDelay (led w)) w
  else
    setLed (ledMinLevel (led w)) (ledWaitDelay (led w)) w.

(** [void FF_LED::setFixed(uint8_t _level)] *)
Definition setFixed (_level : Z) (w : World) : World :=
  let w := Assign.obj (Assign.Level _level) w in
  let w := Assign.obj (Assign.Mode fixed) w in
  setLed (ledLevel (led w)) FF_LED_WAIT_FOR_EVER w.

(** [void FF_LED::setPulse(bool _increase, unsigned long _upTime,
      unsigned long _downTime, unsigned long _waitTime, uint8_t _minLevel,
      uint8_t _maxLevel)] *)
Definition setPulse (_increase : bool)
    (_upTime _downTime _waitTime _minLevel _maxLevel : Z) (w : World) : World :=
  let w := Assign.obj (Assign.Increase _increase) w in
  let w := Assign.obj (Assign.MinLevel _minLevel) w in
  let w := Assign.obj (Assign.MaxLevel _maxLevel) w in
  let w := Assign.obj (Assign.OnDelay _upTime) w in
  let w := Assign.obj (Assign.OffDelay _downTime) w in
  let w := Assign.obj (Assign.WaitDelay _waitTime) w in
  let w := Assign.obj (Assign.Mode pulse) w in
  let w :=
    if ledIncrease (led w) then
      let w := Assign.obj (Assign.PulseIncrement 1) w in
      let w := Assign.obj (Assign.Level (ledMinLevel (led w))) w in
      Assign.obj (Assign.Delay (ledOnDelay (led w))) w
    else
      let w := Assign.obj (Assign.PulseIncrement (-1)) w in
      let w := Assign.obj (Assign.Level (ledMaxLevel (led w))) w in
      Assign.obj (Assign.Delay (ledOffDelay (led w))) w in
  setLed (ledLevel (led w)) (ledDelay (led w)) w.

(** [void FF_LED::begin(void)] *)
Definition begin (w : World) : World :=
  let w := setLed (ledLevel (led w)) FF_LED_WAIT_FOR_EVER w in
  hw (pinMode (ledPin (led w)) OUTPUT) w.

(** The test of [loop()]: [(millis() - ledLastTimeChanged) > ledDelay], the
    subtraction being the one of [unsigned long]. *)
Definition elapsed (now last : Z) : Z := to_ulong (now - last).

(** [void FF_LED::loop(void)].  [ledNewLevel] is an [int16_t]; the sum of a
    [uint8_t] and an [int8_t] always fits. *)
Definition loop (w : World) : World :=
  let (now, w) := millis w in
  if elapsed now (ledLastTimeChanged (led w)) >? ledDelay (led w) then
    match ledMode (led w) with
    | blink =>
        if ledLevel (led w) =? ledMaxLevel (led w) then
          let w := Assign.obj
                     (Assign.BlinksDone (to_uint8 (ledBlinksDone (led w) + 1))) w in
          setLed (ledMinLevel (led w)) (ledOffDelay (led w)) w
        else if ledBlinksDone (led w) >=? ledBlinksNeeded (led w) then
          let w := Assign.obj (Assign.BlinksDone 0) w in
          setLed (ledMinLevel (led w)) (ledWaitDelay (led w)) w
        else
          setLed (ledMaxLevel (led w)) (ledOnDelay (led w)) w
    | pulse =>
        let ledNewLevel := ledLevel (led w) + ledPulseIncrement (led w) in
        if ledPulseIncrement (led w) >? 0 then
          if ledNewLevel >? ledMaxLevel (led w) then
            let w := Assign.obj (Assign.PulseIncrement (-1)) w in
            if ledIncrease (led w) then
              setLed (ledMaxLevel (led w)) (ledOffDelay (led w)) w
            else
              setLed (ledMaxLevel (led w)) (ledWaitDelay (led w)) w
          else
            setLed (to_uint8 ledNewLevel) (ledOnDelay (led w)) w
        else
          if ledNewLevel <? ledMinLevel (led w) then
            let w := Assign.obj (Assign.PulseIncrement 1) w in
            if negb (ledIncrease (led w)) then
              setLed (ledMinLevel (led w)) (ledOnDelay (led w)) w
            else
              setLed (ledMinLevel (led w)) (ledWaitDelay (led w)) w
          else
            setLed (to_uint8 ledNewLevel) (ledOffDelay (led w)) w
    | fixed => w
    end
  else w.

(** ** Polling *)

(** The poll about to be made is due: the reading it will take exceeds, after
    unsigned subtraction, the armed delay. *)
Definition due (w : World) : bool :=
  elapsed (fst (millis w)) (ledLastTimeChanged (led w)) >? ledDelay (led w).

(** [p] successive calls of [loop()]. *)
Fixpoint polls (p : nat) (w : World) : World :=
  match p with
  | O => w
  | S p' => polls p' (loop w)
  end.

(** The objects left by those of [p] successive polls that were due. *)
Fixpoint trace (p : nat) (w : World) : list FF_LED :=
  match p with
  | O => []
  | S p' => if due w then led (loop w) :: trace p' (loop w)
            else trace p' (loop w)
  end.

(** Runs of the polling loop: [run w tr w'] when some number of polls leads
    from [w] to [w'], [tr] listing the object after each due poll. *)
Inductive run : World -> list FF_LED -> World -> Prop :=
| run_done : forall w, run w [] w
| run_idle : forall w tr w',
    due w = false -> run (loop w) tr w' -> run w tr w'
| run_fire : forall w tr w',
    due w = true -> run (loop w) tr w' -> run w (led (loop w) :: tr) w'.

(** The call [setLed] makes on the pins once the level is stored. *)
Definition commitCall (o : FF_LED) : HwCall :=
  if ledLevel o =? 0 then
    digitalWrite (ledPin o) (if ledReverted o then ledMaxLevel o else ledMinLevel o)
  else if ledLevel o =? 255 then
    digitalWrite (ledPin o) (if ledReverted o then ledMinLevel o else ledMaxLevel o)
  else
    analogWrite (ledPin o) (if ledReverted o then 255 - ledLevel o else ledLevel o).

(** What is observed of a phase: the level shown and the delay armed. *)
Definition phase (o : FF_LED) : Z * Z := (ledLevel o, ledDelay o).

(** The fields [loop()] never assigns. *)
Record Settings : Type := mkSettings {
  cfgPin : Z;
  cfgReverted : bool;
  cfgMode : ledModedType;
  cfgBlinks : Z;
  cfgIncrease : bool;
  cfgOn : Z;
  cfgOff : Z;
  cfgWait : Z;
  cfgMin : Z;
  cfgMax : Z
}.

Definition settings (o : FF_LED) : Settings :=
  mkSettings (ledPin o) (ledReverted o) (ledMode o) (ledBlinksNeeded o)
    (ledIncrease o) (ledOnDelay o) (ledOffDelay o) (ledWaitDelay o)
    (ledMinLevel o) (ledMaxLevel o).

(** Integer ranges [lo; lo+1; ...; hi]. *)
Definition zrange (lo hi : Z) : list Z :=
  map (fun i => lo + Z.of_nat i) (seq 0 (Z.to_nat (hi - lo + 1))).

(** The call [setLed] makes for level [l] on a channel set up as [o]. *)
Definition levelCall (o : FF_LED) (l : Z) : HwCall :=
  commitCall (Assign.Level l o).



(** What is observed of a pulse step: level, armed delay and the direction
    the sweep has once the step is made. *)
Definition pulse_step (o : FF_LED) : Z * Z * Z :=
  (ledLevel o, ledDelay o, ledPulseIncrement o).

(** Level and direction only. *)
Definition heading (o : FF_LED) : Z * Z := (ledLevel o, ledPulseIncrement o).

(** The delay armed at the peak and at the trough of a pulse, as [loop()]
    chooses them. *)
Definition peak_delay (increase : bool) (downTime waitTime : Z) : Z :=
  if increase then downTime else waitTime.

Definition trough_delay (increase : bool) (upTime waitTime : Z) : Z :=
  if increase then waitTime else upTime.

(** The due polls of one full pulse period that starts ascending at
    [minLevel]: the climb, the reversal at the peak, the descent, the
    reversal at the trough. *)
Definition pulse_period (increase : bool)
    (upTime downTime waitTime minLevel maxLevel : Z) : list (Z * Z * Z) :=
  map (fun l => (l, upTime, 1)) (zrange (minLevel + 1) maxLevel)
  ++ [(maxLevel, peak_delay increase downTime waitTime, -1)]
  ++ map (fun l => (l, downTime, -1)) (rev (zrange minLevel (maxLevel - 1)))
  ++ [(minLevel, trough_delay increase upTime waitTime, 1)].

(** The two legs of a sweep. *)
Definition ascending_leg (minLevel maxLevel : Z) : list (Z * Z) :=
  map (fun l => (l, 1)) (zrange minLevel maxLevel).

Definition descending_leg (minLevel maxLevel : Z) : list (Z * Z) :=
  map (fun l => (l, -1)) (rev (zrange minLevel maxLevel)).

(** Worlds the public interface can produce from a freshly constructed
    object, every argument being a value of its C++ parameter type. *)
Inductive reachable : World -> Prop :=
| reach_new : forall clk _ledPin _isReverted _initialLevel,
    is_uint8 _ledPin -> is_uint8 _initialLevel ->
    reachable (power_on clk (FF_LED_new _ledPin _isReverted _initialLevel))
| reach_begin : forall w, reachable w -> reachable (begin w)
| reach_loop : forall w, reachable w -> reachable (loop w)
| reach_setFixed : forall w _level,
    is_uint8 _level -> reachable w -> reachable (setFixed _level w)
| reach_setBlink : forall w _blinkCount _onTime _offTime _waitTime _minLevel _maxLevel,
    is_uint8 _blinkCount -> is_ulong _onTime -> is_ulong _offTime ->
    is_ulong _waitTime -> is_uint8 _minLevel -> is_uint8 _maxLevel ->
    reachable w ->
    reachable (setBlink _blinkCount _onTime _offTime _waitTime _minLevel _maxLevel w)
| reach_setPulse : forall w _increase _upTime _downTime _waitTime _minLevel _maxLevel,
    is_ulong _upTime -> is_ulong _downTime -> is_ulong _waitTime ->
    is_uint8 _minLevel -> is_uint8 _maxLevel ->
    reachable w ->
    reachable (setPulse _increase _upTime _downTime _waitTime _minLevel _maxLevel w).

(** The object is blinking with the given parameters. *)
Definition blinking (n onTime offTime waitTime minLevel maxLevel : Z)
    (o : FF_LED) : Prop :=
  ledMode o = blink /\ ledBlinksNeeded o = n /\
  ledOnDelay o = onTime /\ ledOffDelay o = offTime /\
  ledWaitDelay o = waitTime /\
  ledMinLevel o = minLevel /\ ledMaxLevel o = maxLevel.

(** The object is pulsing with the given parameters. *)
Definition pulsing (increase : bool)
    (upTime downTime waitTime minLevel maxLevel : Z) (o : FF_LED) : Prop :=
  ledMode o = pulse /\ ledIncrease o = increase /\
  ledOnDelay o = upTime /\ ledOffDelay o = downTime /\
  ledWaitDelay o = waitTime /\
  ledMinLevel o = minLevel /\ ledMaxLevel o = maxLevel.

(** The object a commit leaves: [setLed(l, d)] at reading [t]. *)
Definition committed (t l d : Z) (o : FF_LED) : FF_LED :=
  Assign.LastTimeChanged t (Assign.Delay d (Assign.Level l o)).

(** The reading [setLed] takes when called from a poll of [w]: the second
    call of [millis()] of that poll. *)
Definition stamp (w : World) : Z := to_ulong (clock w (S (reads w))).

(** A clock that advances by [dt] ms between two calls of [millis()]. *)
Definition ticking (dt : Z) : nat -> Z := fun k => dt * Z.of_nat k.

(** A level write, digital or graduated, on pin [p]. *)
Definition isWriteOn (p : Z) (c : HwCall) : Prop :=
  match c with
  | digitalWrite q _ => q = p
  | analogWrite q _ => q = p
  | pinMode _ _ => False
  end.

(** A graduated write on pin [p] with a duty cycle between [lo] and [hi]. *)
Definition isDutyOn (p lo hi : Z) (c : HwCall) : Prop :=
  match c with
  | analogWrite q v => q = p /\ lo <= v <= hi
  | _ => False
  end.

Definition is_int8 (x : Z) : Prop := -128 <= x <= 127.

(** Every field holds a value of its C++ type. *)
Definition well_typed (o : FF_LED) : Prop :=
  is_uint8 (ledPin o) /\ is_uint8 (ledBlinksNeeded o) /\
  is_uint8 (ledBlinksDone o) /\ is_uint8 (ledMinLevel o) /\
  is_uint8 (ledMaxLevel o) /\ is_uint8 (ledLevel o) /\
  is_int8 (ledPulseIncrement o) /\
  is_ulong (ledOnDelay o) /\ is_ulong (ledOffDelay o) /\
  is_ulong (ledWaitDelay o) /\ is_ulong (ledDelay o) /\
  is_ulong (ledLastTimeChanged o).

(** The object with its timestamp left out. *)
Definition untimed (o : FF_LED) : FF_LED := Assign.LastTimeChanged 0 o.







(** ** Basic facts *)

Ltac crush_world w :=
  let o := fresh "o" in
  destruct w as [o ? ? ?]; destruct o; cbn in *.

Ltac conjs := repeat match goal with |- _ /\ _ => split end.

(** Case analysis along the branches of [loop()]. *)
Ltac loop_cases :=
  repeat match goal with
  | |- context [match ?m with fixed => _ | blink => _ | pulse => _ end] =>
      destruct m; cbn
  | |- context [if ?c then _ else _] => destruct c eqn:?; cbn
  end.

Lemma setLed_eq (l d : Z) (w : World) :
  setLed l d w =
  let o := Assign.LastTimeChanged (to_ulong (clock w (reads w)))
             (Assign.Delay d (Assign.Level l (led w))) in
  mkWorld o (clock w) (S (reads w)) (pins w ++ [commitCall o]).
Proof.
  crush_world w. unfold setLed, commitCall; cbn.
  destruct (l =? 0); [reflexivity|].
  destruct (l =? 255); reflexivity.
Qed.

Arguments setLed : simpl never.
Arguments commitCall : simpl never.

Lemma due_false_loop (w : World) :
  due w = false -> loop w = snd (millis w).
Proof.
  unfold due, loop. crush_world w. intros ->. reflexivity.
Qed.

Lemma fixed_loop (w : World) :
  ledMode (led w) = fixed -> loop w = snd (millis w).
Proof.
  unfold loop. crush_world w. intros ->.
  match goal with |- (if ?c then _ else _) = _ => destruct c end; reflexivity.
Qed.

Lemma loop_settings (w : World) : settings (led (loop w)) = settings (led w).
Proof.
  unfold loop. crush_world w.
  loop_cases; rewrite ?setLed_eq; reflexivity.
Qed.

Lemma loop_mode (w : World) : ledMode (led (loop w)) = ledMode (led w).
Proof.
  change (cfgMode (settings (led (loop w))) = cfgMode (settings (led w))).
  rewrite loop_settings. reflexivity.
Qed.

Lemma loop_clock (w : World) : clock (loop w) = clock w.
Proof.
  unfold loop. crush_world w.
  loop_cases; rewrite ?setLed_eq; reflexivity.
Qed.

Lemma run_polls (p : nat) : forall w, run w (trace p w) (polls p w).
Proof.
  induction p as [|p IH]; intros w; cbn.
  - constructor.
  - destruct (due w) eqn:E.
    + apply run_fire; [exact E | apply IH].
    + apply run_idle; [exact E | apply IH].
Qed.

Lemma run_settings w tr w' :
  run w tr w' ->
  settings (led w') = settings (led w) /\
  Forall (fun o => settings o = settings (led w)) tr.
Proof.
  induction 1 as [w | w tr w' E R [IH1 IH2] | w tr w' E R [IH1 IH2]].
  - split; [reflexivity | constructor].
  - rewrite loop_settings in *. split; assumption.
  - rewrite loop_settings in *. split; [assumption|].
    constructor; [apply loop_settings | assumption].
Qed.

Lemma elapsed_bound (now last : Z) : 0 <= elapsed now last < ULONG_MOD.
Proof. unfold elapsed, to_ulong. apply Z.mod_pos_bound. reflexivity. Qed.

Lemma loop_idle_led (w : World) :
  due w = false -> led (loop w) = led w /\ pins (loop w) = pins w.
Proof.
  intros E. rewrite (due_false_loop w E). split; reflexivity.
Qed.

Lemma forever_not_due (w : World) :
  ledDelay (led w) = FF_LED_WAIT_FOR_EVER -> due w = false.
Proof.
  intros D. unfold due. rewrite D.
  pose proof (elapsed_bound (fst (millis w)) (ledLastTimeChanged (led w))) as B.
  unfold ULONG_MOD in B. unfold FF_LED_WAIT_FOR_EVER.
  rewrite Z.gtb_ltb. apply Z.ltb_ge. lia.
Qed.

Lemma forever_polls (p : nat) : forall w,
  ledDelay (led w) = FF_LED_WAIT_FOR_EVER ->
  led (polls p w) = led w /\ pins (polls p w) = pins w.
Proof.
  induction p as [|p IH]; intros w D.
  - split; reflexivity.
  - change (polls (S p) w) with (polls p (loop w)).
    destruct (loop_idle_led w (forever_not_due w D)) as [L P].
    destruct (IH (loop w)) as [L' P'].
    + rewrite L. exact D.
    + rewrite L', P', L, P. split; reflexivity.
Qed.

Lemma fixed_polls (p : nat) : forall w,
  ledMode (led w) = fixed ->
  led (polls p w) = led w /\ pins (polls p w) = pins w.
Proof.
  induction p as [|p IH]; intros w M.
  - split; reflexivity.
  - change (polls (S p) w) with (polls p (loop w)).
    pose proof (fixed_loop w M) as L.
    destruct (IH (loop w)) as [L' P'].
    + rewrite L. exact M.
    + rewrite L', P', L. split; reflexivity.
Qed.

(** A due poll in blink or pulse mode commits exactly once. *)
Lemma loop_fire_pins (w : World) :
  due w = true -> ledMode (led w) <> fixed ->
  pins (loop w) = pins w ++ [commitCall (led (loop w))].
Proof.
  unfold due, loop. crush_world w. intros -> M.
  loop_cases; rewrite ?setLed_eq; cbn; try reflexivity; congruence.
Qed.

(** ** Fixed mode and the due test *)

(** C7: whatever the mode and the state, a poll whose reading, less
    [ledLastTimeChanged] by unsigned subtraction, does not strictly exceed
    [ledDelay] changes no field of the object and makes no call on the pins;
    this covers the poll at which the elapsed time equals the delay. *)
Theorem loop_idle_unless_exceeded (w : World) :
  elapsed (to_ulong (clock w (reads w))) (ledLastTimeChanged (led w))
    <= ledDelay (led w) ->
  led (loop w) = led w /\ pins (loop w) = pins w.
Proof.
  intros H. apply loop_idle_led. unfold due. cbn.
  rewrite Z.gtb_ltb. apply Z.ltb_ge. exact H.
Qed.

(** At time 1100 ms, a blinking channel armed at 1000 ms for 100 ms: the
    elapsed time equals the delay. *)
Lemma loop_idle_unless_exceeded_witness :
  let w := mkWorld
             (mkFF_LED 2 false 3 0 0 255 255 false 0 blink 100 50 500 100 1000)
             (fun _ => 1100) 0%nat [digitalWrite 2 255] in
  elapsed (to_ulong (clock w (reads w))) (ledLastTimeChanged (led w))
    = ledDelay (led w) /\
  led (loop w) = led w /\ pins (loop w) = pins w.
Proof.
  split; [reflexivity|].
  apply (loop_idle_unless_exceeded
           (mkWorld
             (mkFF_LED 2 false 3 0 0 255 255 false 0 blink 100 50 500 100 1000)
             (fun _ => 1100) 0%nat [digitalWrite 2 255])).
  vm_compute. discriminate.
Defined.

(** C6: after [setFixed] and after [begin] the armed delay is 4294967295,
    and no number of polls, at whatever times, changes a field of the object
    or makes a call on the pins. *)
Theorem fixed_never_fires (w : World) (_level : Z) (p : nat) :
  (ledMode (led (setFixed _level w)) = fixed /\
   ledDelay (led (setFixed _level w)) = 4294967295 /\
   led (polls p (setFixed _level w)) = led (setFixed _level w) /\
   pins (polls p (setFixed _level w)) = pins (setFixed _level w)) /\
  (ledDelay (led (begin w)) = 4294967295 /\
   led (polls p (begin w)) = led (begin w) /\
   pins (polls p (begin w)) = pins (begin w)).
Proof.
  assert (DF : ledDelay (led (setFixed _level w)) = FF_LED_WAIT_FOR_EVER).
  { unfold setFixed. rewrite setLed_eq. reflexivity. }
  assert (DB : ledDelay (led (begin w)) = FF_LED_WAIT_FOR_EVER).
  { unfold begin. rewrite setLed_eq. reflexivity. }
  split.
  - split; [unfold setFixed; rewrite setLed_eq; reflexivity|].
    split; [exact DF|]. apply forever_polls. exact DF.
  - split; [exact DB|]. apply forever_polls. exact DB.
Qed.

(** C9: let the transition have been armed at true time [t0] and the poll
    read the clock at true time [t1], both counted in ms since power-up and
    stored modulo 2^32.  When [t1 - t0] is at most half the range of the
    counter, the test of [loop()] succeeds exactly when [t1 - t0] exceeds the
    armed delay, wherever the counter wrapped in between; in blink and pulse
    mode the poll then commits, and otherwise it does nothing. *)
Theorem due_test_wraparound (w : World) (t0 : Z) :
  ledLastTimeChanged (led w) = to_ulong t0 ->
  0 <= clock w (reads w) - t0 <= 2147483648 ->
  (due w = true <-> clock w (reads w) - t0 > ledDelay (led w)) /\
  (clock w (reads w) - t0 <= ledDelay (led w) ->
   led (loop w) = led w /\ pins (loop w) = pins w) /\
  (clock w (reads w) - t0 > ledDelay (led w) -> ledMode (led w) <> fixed ->
   pins (loop w) = pins w ++ [commitCall (led (loop w))]).
Proof.
  intros L R.
  assert (E : elapsed (fst (millis w)) (ledLastTimeChanged (led w))
              = clock w (reads w) - t0).
  { rewrite L. cbn. unfold elapsed, to_ulong.
    rewrite Zminus_mod_idemp_l, Zminus_mod_idemp_r.
    apply Z.mod_small. unfold ULONG_MOD. lia. }
  assert (D : due w = true <-> clock w (reads w) - t0 > ledDelay (led w)).
  { unfold due. rewrite E. rewrite Z.gtb_ltb, Z.ltb_lt. lia. }
  split; [exact D|]. split.
  - intros H. apply loop_idle_led.
    destruct (due w); [|reflexivity].
    assert (clock w (reads w) - t0 > ledDelay (led w)) by (apply D; reflexivity).
    lia.
  - intros H M. apply loop_fire_pins; [apply D; exact H | exact M].
Qed.

(** The counter wraps between arming (4294967290 ms) and the poll
    (4294967400 ms, read as 104): 110 ms elapsed, 100 ms armed. *)
Lemma due_test_wraparound_witness :
  let w := mkWorld
             (mkFF_LED 2 false 3 0 0 255 255 false 0 blink 100 50 500 100
                4294967290)
             (fun _ => 4294967400) 0%nat [digitalWrite 2 255] in
  to_ulong (clock w (reads w)) = 104 /\
  due w = true /\
  pins (loop w) = pins w ++ [commitCall (led (loop w))].
Proof.
  split; [reflexivity|].
  destruct (due_test_wraparound
              (mkWorld
                 (mkFF_LED 2 false 3 0 0 255 255 false 0 blink 100 50 500 100
                    4294967290)
                 (fun _ => 4294967400) 0%nat [digitalWrite 2 255])
              4294967290) as [D [_ F]].
  - reflexivity.
  - cbn. lia.
  - split.
    + apply D. cbn. lia.
    + apply F; [cbn; lia | cbn; discriminate].
Defined.

(** ** The binary writes *)

(** C10: the digital write made for level 0 carries the stored
    [ledMinLevel] as pin state and the one for level 255 the stored
    [ledMaxLevel], the two being exchanged on a reverted channel.  The
    level-0 write of a channel that is not reverted therefore drives the pin
    low exactly when the stored minimum is 0, and in fixed mode the value
    written is the bound left by the last [setBlink] or [setPulse]. *)
Theorem extreme_levels_write_stored_bounds (w : World) (_delay : Z) :
  pins (setLed 0 _delay w) =
    pins w ++ [digitalWrite (ledPin (led w))
                 (if ledReverted (led w) then ledMaxLevel (led w)
                  else ledMinLevel (led w))] /\
  pins (setLed 255 _delay w) =
    pins w ++ [digitalWrite (ledPin (led w))
                 (if ledReverted (led w) then ledMinLevel (led w)
                  else ledMaxLevel (led w))] /\
  (isBinaryOff (digitalWrite (ledPin (led w)) (ledMinLevel (led w)))
     <-> ledMinLevel (led w) = 0) /\
  (forall n onT offT waitT mn mx,
     let w1 := setBlink n onT offT waitT mn mx w in
     ledMode (led (setFixed 0 w1)) = fixed /\
     pins (setFixed 0 w1) =
       pins w1 ++ [digitalWrite (ledPin (led w))
                     (if ledReverted (led w) then mx else mn)] /\
     pins (setFixed 255 w1) =
       pins w1 ++ [digitalWrite (ledPin (led w))
                     (if ledReverted (led w) then mn else mx)]) /\
  (forall inc upT downT waitT mn mx,
     let w1 := setPulse inc upT downT waitT mn mx w in
     ledMode (led (setFixed 0 w1)) = fixed /\
     pins (setFixed 0 w1) =
       pins w1 ++ [digitalWrite (ledPin (led w))
                     (if ledReverted (led w) then mx else mn)] /\
     pins (setFixed 255 w1) =
       pins w1 ++ [digitalWrite (ledPin (led w))
                     (if ledReverted (led w) then mn else mx)]).
Proof.
  split; [rewrite setLed_eq; reflexivity|].
  split; [rewrite setLed_eq; reflexivity|].
  split.
  - cbn. unfold pinStateOf, LOW.
    destruct (Z.eqb_spec (ledMinLevel (led w)) 0); split; intros; congruence.
  - split.
    + intros n onT offT waitT mn mx w1. subst w1.
      unfold setFixed, setBlink. cbn.
      destruct (negb (n =? 0)); rewrite !setLed_eq; cbn;
        repeat split; reflexivity.
    + intros inc upT downT waitT mn mx w1. subst w1.
      unfold setFixed, setPulse. cbn.
      destruct inc; cbn; rewrite !setLed_eq; cbn; repeat split; reflexivity.
Qed.

(** With the bounds of a freshly constructed object (0 and 255), the
    extreme levels of a reverted channel are written with the opposite pin
    state. *)
Lemma reverted_default_bounds (w : World) (_delay : Z) :
  ledReverted (led w) = true ->
  ledMinLevel (led w) = 0 -> ledMaxLevel (led w) <> 0 ->
  (exists c, pins (setLed 255 _delay w) = pins w ++ [c] /\ isBinaryOff c) /\
  (exists c, pins (setLed 0 _delay w) = pins w ++ [c] /\ isBinaryOn c).
Proof.
  intros R Mn Mx. split.
  - eexists. split; [rewrite setLed_eq; reflexivity|].
    unfold commitCall. cbn. rewrite R, Mn. reflexivity.
  - eexists. split; [rewrite setLed_eq; reflexivity|].
    unfold commitCall. cbn. rewrite R. unfold pinStateOf, LOW.
    destruct (Z.eqb_spec (ledMaxLevel (led w)) 0); congruence.
Qed.

(** C4, where the code departs from it: on a reverted channel,
    [setBlink(1, 100, 50, 500, 1, 255)] commits level 255 by
    [digitalWrite(pin, ledMinLevel)], that is [digitalWrite(pin, HIGH)]: the
    binary "on" write, not the "off" one. *)
Theorem reverted_full_level_written_high (clk : nat -> Z) :
  let w := setBlink 1 100 50 500 1 255
             (begin (power_on clk (FF_LED_new 2 true 0))) in
  ledReverted (led w) = true /\
  ledLevel (led w) = 255 /\
  pins w = [digitalWrite 2 255; pinMode 2 OUTPUT; digitalWrite 2 HIGH] /\
  isBinaryOn (digitalWrite 2 HIGH) /\
  ~ isBinaryOff (digitalWrite 2 HIGH).
Proof.
  cbn zeta. unfold setBlink, begin. cbn. rewrite !setLed_eq. cbn.
  repeat split. intros H. discriminate H.
Qed.

(** ** What a due poll does, branch by branch *)

Ltac fire_branch w :=
  unfold due, loop, stamp, committed; crush_world w.

Lemma blink_fire_on (w : World) :
  due w = true -> ledMode (led w) = blink ->
  ledLevel (led w) = ledMaxLevel (led w) ->
  led (loop w) =
    committed (stamp w) (ledMinLevel (led w)) (ledOffDelay (led w))
      (Assign.BlinksDone (to_uint8 (ledBlinksDone (led w) + 1)) (led w)).
Proof.
  fire_branch w. intros -> -> ->. rewrite Z.eqb_refl, setLed_eq. reflexivity.
Qed.

Lemma blink_fire_pause (w : World) :
  due w = true -> ledMode (led w) = blink ->
  ledLevel (led w) <> ledMaxLevel (led w) ->
  ledBlinksDone (led w) >= ledBlinksNeeded (led w) ->
  led (loop w) =
    committed (stamp w) (ledMinLevel (led w)) (ledWaitDelay (led w))
      (Assign.BlinksDone 0 (led w)).
Proof.
  fire_branch w. intros -> -> L D.
  apply Z.eqb_neq in L. apply Z.geb_ge in D. rewrite L, D, setLed_eq.
  reflexivity.
Qed.

Lemma blink_fire_off (w : World) :
  due w = true -> ledMode (led w) = blink ->
  ledLevel (led w) <> ledMaxLevel (led w) ->
  ledBlinksDone (led w) < ledBlinksNeeded (led w) ->
  led (loop w) =
    committed (stamp w) (ledMaxLevel (led w)) (ledOnDelay (led w)) (led w).
Proof.
  fire_branch w. intros -> -> L D.
  apply Z.eqb_neq in L. rewrite L.
  replace (ledBlinksDone0 >=? ledBlinksNeeded0) with false
    by (symmetry; rewrite Z.geb_leb; apply Z.leb_gt; lia).
  rewrite setLed_eq. reflexivity.
Qed.

Lemma pulse_fire_up (w : World) :
  due w = true -> ledMode (led w) = pulse ->
  ledPulseIncrement (led w) > 0 ->
  ledLevel (led w) + ledPulseIncrement (led w) <= ledMaxLevel (led w) ->
  led (loop w) =
    committed (stamp w)
      (to_uint8 (ledLevel (led w) + ledPulseIncrement (led w)))
      (ledOnDelay (led w)) (led w).
Proof.
  fire_branch w. intros -> -> I L.
  apply Z.gtb_gt in I. rewrite I.
  replace (ledLevel0 + ledPulseIncrement0 >? ledMaxLevel0) with false
    by (symmetry; rewrite Z.gtb_ltb; apply Z.ltb_ge; lia).
  rewrite setLed_eq. reflexivity.
Qed.

Lemma pulse_fire_peak (w : World) :
  due w = true -> ledMode (led w) = pulse ->
  ledPulseIncrement (led w) > 0 ->
  ledLevel (led w) + ledPulseIncrement (led w) > ledMaxLevel (led w) ->
  led (loop w) =
    committed (stamp w) (ledMaxLevel (led w))
      (if ledIncrease (led w) then ledOffDelay (led w)
       else ledWaitDelay (led w))
      (Assign.PulseIncrement (-1) (led w)).
Proof.
  fire_branch w. intros -> -> I L.
  apply Z.gtb_gt in I. apply Z.gtb_gt in L. rewrite I, L.
  destruct ledIncrease0; cbn; rewrite !setLed_eq; reflexivity.
Qed.

Lemma pulse_fire_down (w : World) :
  due w = true -> ledMode (led w) = pulse ->
  ledPulseIncrement (led w) <= 0 ->
  ledLevel (led w) + ledPulseIncrement (led w) >= ledMinLevel (led w) ->
  led (loop w) =
    committed (stamp w)
      (to_uint8 (ledLevel (led w) + ledPulseIncrement (led w)))
      (ledOffDelay (led w)) (led w).
Proof.
  fire_branch w. intros -> -> I L.
  replace (ledPulseIncrement0 >? 0) with false
    by (symmetry; rewrite Z.gtb_ltb; apply Z.ltb_ge; lia).
  replace (ledLevel0 + ledPulseIncrement0 <? ledMinLevel0) with false
    by (symmetry; apply Z.ltb_ge; lia).
  rewrite setLed_eq. reflexivity.
Qed.

Lemma pulse_fire_trough (w : World) :
  due w = true -> ledMode (led w) = pulse ->
  ledPulseIncrement (led w) <= 0 ->
  ledLevel (led w) + ledPulseIncrement (led w) < ledMinLevel (led w) ->
  led (loop w) =
    committed (stamp w) (ledMinLevel (led w))
      (if ledIncrease (led w) then ledWaitDelay (led w)
       else ledOnDelay (led w))
      (Assign.PulseIncrement 1 (led w)).
Proof.
  fire_branch w. intros -> -> I L.
  replace (ledPulseIncrement0 >? 0) with false
    by (symmetry; rewrite Z.gtb_ltb; apply Z.ltb_ge; lia).
  apply Z.ltb_lt in L. rewrite L.
  destruct ledIncrease0; cbn; rewrite !setLed_eq; reflexivity.
Qed.

(** ** Runs *)

Lemma run_nil_inv w tr w' :
  run w tr w' -> tr = [] -> led w' = led w /\ pins w' = pins w.
Proof.
  induction 1 as [w | w tr w' E R IH | w tr w' E R IH]; intros N.
  - split; reflexivity.
  - destruct (loop_idle_led w E) as [L P]. destruct (IH N) as [L' P'].
    rewrite L', P', L, P. split; reflexivity.
  - discriminate N.
Qed.

Lemma run_cons_inv w tr w' :
  run w tr w' -> forall x rest, tr = x :: rest ->
  exists w1, led w1 = led w /\ due w1 = true /\ x = led (loop w1) /\
             run (loop w1) rest w'.
Proof.
  induction 1 as [w | w tr w' E R IH | w tr w' E R IH]; intros x rest N.
  - discriminate N.
  - destruct (IH x rest N) as [w1 [L [D [X R']]]].
    exists w1. destruct (loop_idle_led w E) as [L0 _].
    rewrite L, L0. repeat split; assumption.
  - injection N as <- <-. exists w. repeat split; assumption.
Qed.

Lemma run_pins w tr w' :
  run w tr w' -> ledMode (led w) <> fixed ->
  pins w' = pins w ++ map commitCall tr.
Proof.
  induction 1 as [w | w tr w' E R IH | w tr w' E R IH]; intros M.
  - cbn. rewrite app_nil_r. reflexivity.
  - destruct (loop_idle_led w E) as [L P].
    rewrite IH, P; [reflexivity | rewrite L; exact M].
  - rewrite IH.
    + rewrite (loop_fire_pins w E M). rewrite <- app_assoc. reflexivity.
    + rewrite loop_mode. exact M.
Qed.

(** ** Blinking *)

Lemma blinking_settings n onT offT waitT mn mx (o o' : FF_LED) :
  settings o' = settings o ->
  blinking n onT offT waitT mn mx o -> blinking n onT offT waitT mn mx o'.
Proof.
  unfold settings, blinking. intros S.
  injection S as _ _ E1 E2 _ E3 E4 E5 E6 E7.
  rewrite E1, E2, E3, E4, E5, E6, E7. exact (fun H => H).
Qed.


Lemma commitCall_settings (o o' : FF_LED) :
  settings o = settings o' -> commitCall o = levelCall o' (ledLevel o).
Proof.
  unfold settings, levelCall, commitCall. intros S.
  injection S as E1 E2 _ _ _ _ _ _ E3 E4. cbn.
  rewrite E1, E2, E3, E4. reflexivity.
Qed.


Section Blink.

Variables n onT offT waitT mn mx : Z.
Hypothesis count_range : 1 <= n <= 255.
Hypothesis levels_apart : mn < mx.

Local Abbreviation cfg := (blinking n onT offT waitT mn mx).

Lemma cfg_loop (w : World) : cfg (led w) -> cfg (led (loop w)).
Proof. apply blinking_settings, loop_settings. Qed.

Lemma blink_step_on (w : World) (d : Z) :
  due w = true -> cfg (led w) -> ledLevel (led w) = mx ->
  ledBlinksDone (led w) = d -> 0 <= d < 255 ->
  phase (led (loop w)) = (mn, offT) /\ ledBlinksDone (led (loop w)) = d + 1.
Proof.
  intros D C L B R. destruct C as [M [_ [_ [Of [_ [Mn Mx]]]]]].
  rewrite (blink_fire_on w D M) by congruence.
  unfold phase. cbn. rewrite Mn, Of, B. split; [reflexivity|].
  unfold to_uint8, UINT8_MOD. apply Z.mod_small. lia.
Qed.

Lemma blink_step_off (w : World) :
  due w = true -> cfg (led w) -> ledLevel (led w) = mn ->
  ledBlinksDone (led w) < n ->
  phase (led (loop w)) = (mx, onT) /\
  ledBlinksDone (led (loop w)) = ledBlinksDone (led w).
Proof.
  intros D C L B. destruct C as [M [Nd [On [_ [_ [Mn Mx]]]]]].
  rewrite (blink_fire_off w D M) by lia.
  unfold phase. cbn. rewrite Mx, On. split; reflexivity.
Qed.

Lemma blink_step_pause (w : World) :
  due w = true -> cfg (led w) -> ledLevel (led w) = mn ->
  ledBlinksDone (led w) >= n ->
  phase (led (loop w)) = (mn, waitT) /\ ledBlinksDone (led (loop w)) = 0.
Proof.
  intros D C L B. destruct C as [M [Nd [_ [_ [Wt [Mn Mx]]]]]].
  rewrite (blink_fire_pause w D M) by lia.
  unfold phase. cbn. rewrite Mn, Wt. split; reflexivity.
Qed.

(** From an on-phase with [d] blinks done, [k] further blinks that do not
    complete the sequence. *)
Lemma blink_pairs (k : nat) : forall w tr w' d,
  run w tr w' -> cfg (led w) -> phase (led w) = (mx, onT) ->
  ledBlinksDone (led w) = d -> 0 <= d -> d + Z.of_nat k < n ->
  (2 * k <= length tr)%nat ->
  exists t1 t2 wm,
    tr = t1 ++ t2 /\ length t1 = (2 * k)%nat /\
    map phase t1 = concat (repeat [(mn, offT); (mx, onT)] k) /\
    cfg (led wm) /\ phase (led wm) = (mx, onT) /\
    ledBlinksDone (led wm) = d + Z.of_nat k /\ run wm t2 w'.
Proof.
  induction k as [|k IH]; intros w tr w' d R C P B D0 Dk Len.
  - exists [], tr, w. cbn. rewrite Z.add_0_r.
    conjs; (assumption || reflexivity).
  - destruct tr as [|x [|y rest]]; cbn in Len; try lia.
    destruct (run_cons_inv _ _ _ R x (y :: rest) eq_refl)
      as [w1 [L1 [D1 [X R1]]]].
    assert (C1 : cfg (led w1)) by (rewrite L1; exact C).
    injection P as Lv Dl.
    destruct (blink_step_on w1 d D1 C1) as [P1 B1];
      [rewrite L1; exact Lv | rewrite L1; exact B | lia |].
    destruct (run_cons_inv _ _ _ R1 y rest eq_refl)
      as [w2 [L2 [D2 [Y R2]]]].
    assert (C2 : cfg (led w2)) by (rewrite L2; apply cfg_loop; exact C1).
    destruct (blink_step_off w2 D2 C2) as [P2 B2].
    { rewrite L2. injection P1 as E _. exact E. }
    { rewrite L2, B1. lia. }
    destruct (IH (loop w2) rest w' (d + 1) R2) as [t1 [t2 [wm H]]].
    { apply cfg_loop. exact C2. }
    { exact P2. }
    { rewrite B2, L2. exact B1. }
    { lia. }
    { lia. }
    { lia. }
    destruct H as [E [Ln [Ph [Cm [Pm [Bm Rm]]]]]].
    exists (x :: y :: t1), t2, wm. conjs; try assumption.
    + rewrite E. reflexivity.
    + cbn. rewrite Ln. lia.
    + cbn [map repeat concat app]. rewrite Ph, X, Y, P1, P2. reflexivity.
    + rewrite Bm. lia.
Qed.



End Blink.

Lemma setBlink_start n onT offT waitT mn mx (w0 : World) :
  n <> 0 ->
  let w := setBlink n onT offT waitT mn mx w0 in
  blinking n onT offT waitT mn mx (led w) /\
  phase (led w) = (mx, onT) /\
  ledBlinksDone (led w) = 0 /\
  pins w = pins w0 ++ [levelCall (led w) mx].
Proof.
  intros N. apply Z.eqb_neq in N. unfold setBlink, blinking, phase. cbn.
  rewrite N. cbn. rewrite setLed_eq. cbn. conjs; reflexivity.
Qed.


Lemma run_calls w tr w' :
  run w tr w' -> ledMode (led w) <> fixed ->
  pins w' = pins w ++ map (fun p => levelCall (led w) (fst p)) (map phase tr).
Proof.
  intros R M. rewrite (run_pins w tr w' R M). f_equal.
  rewrite map_map. apply map_ext_in. intros o I.
  destruct (run_settings w tr w' R) as [_ F].
  rewrite Forall_forall in F. apply commitCall_settings, F, I.
Qed.


(** ** The zero-count blink *)

Lemma parked_run n onT offT waitT mn mx w tr w' :
  run w tr w' -> mn <> mx -> n <= 0 ->
  blinking n onT offT waitT mn mx (led w) ->
  phase (led w) = (mn, waitT) -> ledBlinksDone (led w) = 0 ->
  Forall (fun o => phase o = (mn, waitT)) tr /\
  phase (led w') = (mn, waitT).
Proof.
  induction 1 as [w | w tr w' E R IH | w tr w' E R IH]; intros N Z0 C P B.
  - split; [constructor | exact P].
  - destruct (loop_idle_led w E) as [L _]. rewrite <- L in C, P, B.
    apply IH; assumption.
  - assert (F : led (loop w) =
                committed (stamp w) (ledMinLevel (led w))
                  (ledWaitDelay (led w)) (Assign.BlinksDone 0 (led w))).
    { destruct C as [M [Nd [_ [_ [_ [Mn Mx]]]]]]. injection P as Lv _.
      apply blink_fire_pause; [exact E | exact M | congruence | lia]. }
    assert (P' : phase (led (loop w)) = (mn, waitT)).
    { rewrite F. destruct C as [_ [_ [_ [_ [Wt [Mn _]]]]]].
      unfold phase. cbn. rewrite Mn, Wt. reflexivity. }
    destruct IH as [IH1 IH2]; try assumption.
    + apply (blinking_settings _ _ _ _ _ _ (led w));
        [apply loop_settings | exact C].
    + rewrite F. reflexivity.
    + split; [constructor; assumption | exact IH2].
Qed.

(** C5 as stated fails when the two levels are equal: after
    [setBlink(0, 100, 50, 500, 7, 7)] the level is [maxLevel] at once, and the
    next due poll arms [offTime] (50), not [waitTime] (500). *)
Lemma zero_blink_equal_levels :
  let w := setBlink 0 100 50 500 7 7
             (begin (power_on (ticking 1000) (FF_LED_new 2 false 0))) in
  phase (led w) = (7, 500) /\
  ledLevel (led w) = ledMaxLevel (led w) /\
  due w = true /\
  phase (led (loop w)) = (7, 50) /\
  ledDelay (led (loop w)) <> ledWaitDelay (led (loop w)).
Proof.
  vm_compute. repeat split. discriminate.
Qed.

(** C5, amended: after [setBlink] with a count of 0 and
    [minLevel <> maxLevel], the channel shows [minLevel] with [waitTime]
    armed; every due poll commits [minLevel] again with [waitTime] armed, by
    one more off-write, and the level is never [maxLevel]. *)
Theorem zero_blink_parks (onT offT waitT mn mx : Z)
    (w0 : World) (tr : list FF_LED) (w' : World) :
  mn <> mx ->
  let w := setBlink 0 onT offT waitT mn mx w0 in
  run w tr w' ->
  phase (led w) = (mn, waitT) /\
  pins w = pins w0 ++ [levelCall (led w) mn] /\
  Forall (fun o => phase o = (mn, waitT)) tr /\
  phase (led w') = (mn, waitT) /\
  ledLevel (led w') <> mx /\
  pins w' = pins w ++ repeat (levelCall (led w) mn) (length tr).
Proof.
  intros N w R.
  assert (S0 : blinking 0 onT offT waitT mn mx (led w) /\
               phase (led w) = (mn, waitT) /\ ledBlinksDone (led w) = 0 /\
               pins w = pins w0 ++ [levelCall (led w) mn]).
  { subst w. unfold setBlink, blinking, phase. cbn. rewrite setLed_eq. cbn.
    conjs; reflexivity. }
  destruct S0 as [C [P [B Pw]]].
  destruct (parked_run 0 onT offT waitT mn mx w tr w' R N (Z.le_refl 0) C P B)
    as [F P'].
  conjs; try assumption.
  - injection P' as Lv _. congruence.
  - rewrite (run_calls w tr w' R) by (destruct C as [M _]; congruence).
    f_equal. clear R. induction F as [|o tr' Po F IH]; [reflexivity|].
    cbn [map length repeat]. rewrite Po, IH. reflexivity.
Qed.

(** [setBlink(0, 100, 50, 500)]: three due polls. *)
Lemma zero_blink_parks_witness :
  let w0 := begin (power_on (ticking 1000) (FF_LED_new 2 false 0)) in
  let w := setBlink 0 100 50 500 0 255 w0 in
  map phase (trace 3 w) = [(0, 500); (0, 500); (0, 500)] /\
  ledLevel (led (polls 3 w)) <> 255 /\
  pins (polls 3 w) =
    pins w ++ [digitalWrite 2 0; digitalWrite 2 0; digitalWrite 2 0].
Proof.
  cbn zeta.
  destruct (zero_blink_parks 100 50 500 0 255
              (begin (power_on (ticking 1000) (FF_LED_new 2 false 0)))
              (trace 3 (setBlink 0 100 50 500 0 255
                 (begin (power_on (ticking 1000) (FF_LED_new 2 false 0)))))
              (polls 3 (setBlink 0 100 50 500 0 255
                 (begin (power_on (ticking 1000) (FF_LED_new 2 false 0))))))
    as [_ [_ [_ [_ [L W]]]]].
  - lia.
  - apply run_polls.
  - split; [vm_compute; reflexivity|]. split; [exact L | exact W].
Defined.

(** ** The range of the level *)

Ltac zbool :=
  repeat match goal with
  | H : (_ >? _) = true |- _ => apply Z.gtb_gt in H
  | H : (_ >? _) = false |- _ => rewrite Z.gtb_ltb in H; apply Z.ltb_ge in H
  | H : (_ <? _) = true |- _ => apply Z.ltb_lt in H
  | H : (_ <? _) = false |- _ => apply Z.ltb_ge in H
  | H : (_ =? _) = true |- _ => apply Z.eqb_eq in H
  | H : (_ =? _) = false |- _ => apply Z.eqb_neq in H
  | H : (_ >=? _) = true |- _ => apply Z.geb_ge in H
  | H : (_ >=? _) = false |- _ => rewrite Z.geb_leb in H; apply Z.leb_gt in H
  end.

Lemma to_uint8_range (x : Z) : is_uint8 (to_uint8 x).
Proof.
  unfold is_uint8, to_uint8, UINT8_MOD.
  pose proof (Z.mod_pos_bound x 256 eq_refl). lia.
Qed.

Lemma to_uint8_small (x : Z) : 0 <= x <= 255 -> to_uint8 x = x.
Proof. intros H. unfold to_uint8, UINT8_MOD. apply Z.mod_small. lia. Qed.

Lemma loop_uint8 (w : World) :
  is_uint8 (ledLevel (led w)) /\ is_uint8 (ledMinLevel (led w)) /\
  is_uint8 (ledMaxLevel (led w)) ->
  is_uint8 (ledLevel (led (loop w))) /\ is_uint8 (ledMinLevel (led (loop w))) /\
  is_uint8 (ledMaxLevel (led (loop w))).
Proof.
  unfold loop. crush_world w. intros [L [Mn Mx]].
  loop_cases; rewrite ?setLed_eq; cbn; conjs;
    solve [assumption | apply to_uint8_range].
Qed.

Lemma reachable_uint8 (w : World) :
  reachable w ->
  is_uint8 (ledLevel (led w)) /\ is_uint8 (ledMinLevel (led w)) /\
  is_uint8 (ledMaxLevel (led w)).
Proof.
  induction 1 as [clk pin rv lvl Hp Hl | w R IH | w R IH | w lvl Hl R IH
                 | w n onT offT waitT mn mx Hn _ _ _ Hmn Hmx R IH
                 | w inc upT downT waitT mn mx _ _ _ Hmn Hmx R IH].
  - cbn. conjs; [exact Hl | |]; unfold is_uint8; lia.
  - unfold begin. rewrite setLed_eq. exact IH.
  - apply loop_uint8. exact IH.
  - destruct IH as [_ [Mn Mx]]. unfold setFixed. rewrite setLed_eq. cbn.
    conjs; assumption.
  - unfold setBlink. cbn. destruct (negb (n =? 0)); rewrite setLed_eq; cbn;
      conjs; assumption.
  - unfold setPulse. cbn. destruct inc; cbn; rewrite setLed_eq; cbn;
      conjs; assumption.
Qed.

Lemma blink_loop_levels (mn mx : Z) (w : World) :
  ledMode (led w) = blink /\ ledMinLevel (led w) = mn /\
  ledMaxLevel (led w) = mx /\
  (ledLevel (led w) = mn \/ ledLevel (led w) = mx) ->
  ledMode (led (loop w)) = blink /\ ledMinLevel (led (loop w)) = mn /\
  ledMaxLevel (led (loop w)) = mx /\
  (ledLevel (led (loop w)) = mn \/ ledLevel (led (loop w)) = mx).
Proof.
  unfold loop. crush_world w. intros [M [Mn [Mx L]]]. subst.
  loop_cases; rewrite ?setLed_eq; cbn; conjs; auto.
Qed.

Lemma pulse_loop_levels (mn mx : Z) (w : World) :
  0 <= mn -> mn <= mx -> mx <= 255 ->
  ledMode (led w) = pulse /\ ledMinLevel (led w) = mn /\
  ledMaxLevel (led w) = mx /\ mn <= ledLevel (led w) <= mx /\
  (ledPulseIncrement (led w) = 1 \/ ledPulseIncrement (led w) = -1) ->
  ledMode (led (loop w)) = pulse /\ ledMinLevel (led (loop w)) = mn /\
  ledMaxLevel (led (loop w)) = mx /\ mn <= ledLevel (led (loop w)) <= mx /\
  (ledPulseIncrement (led (loop w)) = 1 \/
   ledPulseIncrement (led (loop w)) = -1).
Proof.
  unfold loop. crush_world w. intros H0 H1 H2 [M [Mn [Mx [L I]]]]. subst.
  loop_cases; rewrite ?setLed_eq; cbn; zbool;
    rewrite ?to_uint8_small by lia; conjs; auto; lia.
Qed.

(** C8: the level of every reachable state is in [0, 255]; after
    [setBlink] with [minLevel <= maxLevel], and after [setPulse] with
    [minLevel <= maxLevel], the level stays within [minLevel, maxLevel]
    through any number of polls, whatever the clock does. *)
Theorem level_range :
  (forall w, reachable w -> 0 <= ledLevel (led w) <= 255) /\
  (forall n onT offT waitT mn mx w0 p,
     mn <= mx ->
     mn <= ledLevel (led (polls p (setBlink n onT offT waitT mn mx w0))) <= mx) /\
  (forall inc upT downT waitT mn mx w0 p,
     is_uint8 mn -> is_uint8 mx -> mn <= mx ->
     mn <= ledLevel (led (polls p (setPulse inc upT downT waitT mn mx w0))) <= mx).
Proof.
  split; [intros w R; apply (reachable_uint8 w R)|]. split.
  - intros n onT offT waitT mn mx w0 p Le.
    assert (I : forall q w,
              ledMode (led w) = blink /\ ledMinLevel (led w) = mn /\
              ledMaxLevel (led w) = mx /\
              (ledLevel (led w) = mn \/ ledLevel (led w) = mx) ->
              mn <= ledLevel (led (polls q w)) <= mx).
    { induction q as [|q IH]; intros w H.
      - cbn. destruct H as [_ [_ [_ [L | L]]]]; lia.
      - apply (IH (loop w)), blink_loop_levels, H. }
    apply I. unfold setBlink. cbn.
    destruct (negb (n =? 0)); rewrite setLed_eq; cbn; conjs; auto.
  - intros inc upT downT waitT mn mx w0 p [Mn0 _] [_ Mx1] Le.
    assert (I : forall q w,
              ledMode (led w) = pulse /\ ledMinLevel (led w) = mn /\
              ledMaxLevel (led w) = mx /\ mn <= ledLevel (led w) <= mx /\
              (ledPulseIncrement (led w) = 1 \/
               ledPulseIncrement (led w) = -1) ->
              mn <= ledLevel (led (polls q w)) <= mx).
    { induction q as [|q IH]; intros w H.
      - cbn. destruct H as [_ [_ [_ [L _]]]]. exact L.
      - apply (IH (loop w)), pulse_loop_levels; assumption. }
    apply I. unfold setPulse. cbn.
    destruct inc; cbn; rewrite setLed_eq; cbn; conjs; auto; lia.
Qed.

(** A channel constructed, started, set pulsing between 3 and 9, then polled
    forty times; and a blink between 10 and 200. *)
Lemma level_range_witness :
  let w0 := begin (power_on (ticking 30) (FF_LED_new 2 false 0)) in
  0 <= ledLevel (led (polls 40 (setPulse true 20 20 1000 3 9 w0))) <= 255 /\
  10 <= ledLevel (led (polls 7 (setBlink 2 100 50 500 10 200 w0))) <= 200 /\
  3 <= ledLevel (led (polls 40 (setPulse true 20 20 1000 3 9 w0))) <= 9.
Proof.
  cbn zeta. destruct level_range as [A [B C]]. split; [|split].
  - apply A.
    assert (P : forall q w, reachable w -> reachable (polls q w)).
    { induction q as [|q IH]; intros w R; [exact R|].
      apply (IH (loop w)), reach_loop, R. }
    apply P, reach_setPulse; unfold is_ulong, is_uint8, ULONG_MOD; try lia.
    apply reach_begin, reach_new; unfold is_uint8; lia.
  - apply B. lia.
  - apply C; unfold is_uint8; lia.
Defined.

(** ** Integer ranges *)

Lemma zrange_empty (lo hi : Z) : hi < lo -> zrange lo hi = [].
Proof.
  intros H. unfold zrange. replace (Z.to_nat (hi - lo + 1)) with 0%nat by lia.
  reflexivity.
Qed.

Lemma zrange_cons (lo hi : Z) :
  lo <= hi -> zrange lo hi = lo :: zrange (lo + 1) hi.
Proof.
  intros H. unfold zrange.
  replace (Z.to_nat (hi - lo + 1)) with (S (Z.to_nat (hi - (lo + 1) + 1)))
    by lia.
  cbn [seq map]. f_equal; [lia|].
  rewrite <- seq_shift, map_map. apply map_ext. intros i. lia.
Qed.

Lemma zrange_snoc (lo hi : Z) :
  lo <= hi -> zrange lo hi = zrange lo (hi - 1) ++ [hi].
Proof.
  intros H. unfold zrange.
  replace (Z.to_nat (hi - lo + 1)) with (S (Z.to_nat (hi - 1 - lo + 1)))
    by lia.
  rewrite seq_S, map_app. cbn [map]. do 2 f_equal. lia.
Qed.

Lemma zrange_In (lo hi x : Z) : In x (zrange lo hi) <-> lo <= x <= hi.
Proof.
  unfold zrange. rewrite in_map_iff. split.
  - intros [i [E I]]. apply in_seq in I. lia.
  - intros H. exists (Z.to_nat (x - lo)). split; [lia|].
    apply in_seq. lia.
Qed.

Lemma zrange_NoDup (lo hi : Z) : NoDup (zrange lo hi).
Proof.
  unfold zrange. apply NoDup_map_NoDup_ForallPairs; [|apply seq_NoDup].
  intros i j _ _ E. lia.
Qed.

Lemma tagged_In (d : Z) (l : list Z) (x e : Z) :
  In (x, e) (map (fun l => (l, d)) l) <-> In x l /\ e = d.
Proof.
  rewrite in_map_iff. split.
  - intros [y [E I]]. injection E as -> ->. split; [exact I | reflexivity].
  - intros [I ->]. exists x. split; [reflexivity | exact I].
Qed.

Lemma tagged_NoDup (d : Z) (l : list Z) :
  NoDup l -> NoDup (map (fun l => (l, d)) l).
Proof.
  intros N. apply NoDup_map_NoDup_ForallPairs; [|exact N].
  intros x y _ _ E. injection E as E. exact E.
Qed.

(** Each level of [minLevel .. maxLevel] occurs exactly once in a leg. *)
Lemma legs_once (mn mx : Z) :
  NoDup (ascending_leg mn mx) /\ NoDup (descending_leg mn mx) /\
  (forall l, In (l, 1) (ascending_leg mn mx) <-> mn <= l <= mx) /\
  (forall l, In (l, -1) (descending_leg mn mx) <-> mn <= l <= mx).
Proof.
  unfold ascending_leg, descending_leg. conjs.
  - apply tagged_NoDup, zrange_NoDup.
  - apply tagged_NoDup, NoDup_rev, zrange_NoDup.
  - intros l. rewrite tagged_In, zrange_In. intuition.
  - intros l. rewrite tagged_In, <- in_rev, zrange_In. intuition.
Qed.

(** ** Pulsing *)

Lemma pulsing_settings inc upT downT waitT mn mx (o o' : FF_LED) :
  settings o' = settings o ->
  pulsing inc upT downT waitT mn mx o -> pulsing inc upT downT waitT mn mx o'.
Proof.
  unfold settings, pulsing. intros S.
  injection S as _ _ E1 _ E2 E3 E4 E5 E6 E7.
  rewrite E1, E2, E3, E4, E5, E6, E7. exact (fun H => H).
Qed.

Section Pulse.

Variable inc : bool.
Variables upT downT waitT mn mx : Z.
Hypothesis min_range : 0 <= mn.
Hypothesis levels_apart : mn < mx.
Hypothesis max_range : mx <= 255.

Local Abbreviation cfg := (pulsing inc upT downT waitT mn mx).

Lemma pulse_cfg_loop (w : World) : cfg (led w) -> cfg (led (loop w)).
Proof. apply pulsing_settings, loop_settings. Qed.

Lemma pulse_step_up (w : World) (l : Z) :
  due w = true -> cfg (led w) -> ledPulseIncrement (led w) = 1 ->
  ledLevel (led w) = l -> 0 <= l < mx ->
  pulse_step (led (loop w)) = (l + 1, upT, 1).
Proof.
  intros D C I L R. destruct C as [M [_ [Up [_ [_ [Mn Mx]]]]]].
  rewrite (pulse_fire_up w D M) by lia.
  unfold pulse_step. cbn. rewrite I, L, Up.
  rewrite to_uint8_small by lia. reflexivity.
Qed.

Lemma pulse_step_peak (w : World) :
  due w = true -> cfg (led w) -> ledPulseIncrement (led w) = 1 ->
  ledLevel (led w) = mx ->
  pulse_step (led (loop w)) = (mx, peak_delay inc downT waitT, -1).
Proof.
  intros D C I L. destruct C as [M [In [_ [Dn [Wt [Mn Mx]]]]]].
  rewrite (pulse_fire_peak w D M) by lia.
  unfold pulse_step, peak_delay. cbn. rewrite In, Dn, Wt, Mx. reflexivity.
Qed.

Lemma pulse_step_down (w : World) (l : Z) :
  due w = true -> cfg (led w) -> ledPulseIncrement (led w) = -1 ->
  ledLevel (led w) = l -> mn < l <= 255 ->
  pulse_step (led (loop w)) = (l - 1, downT, -1).
Proof.
  intros D C I L R. destruct C as [M [_ [_ [Dn [_ [Mn Mx]]]]]].
  rewrite (pulse_fire_down w D M) by lia.
  unfold pulse_step. cbn. rewrite I, L, Dn.
  rewrite to_uint8_small by lia. reflexivity.
Qed.

Lemma pulse_step_trough (w : World) :
  due w = true -> cfg (led w) -> ledPulseIncrement (led w) = -1 ->
  ledLevel (led w) = mn ->
  pulse_step (led (loop w)) = (mn, trough_delay inc upT waitT, 1).
Proof.
  intros D C I L. destruct C as [M [In [Up [_ [Wt [Mn Mx]]]]]].
  rewrite (pulse_fire_trough w D M) by lia.
  unfold pulse_step, trough_delay. cbn. rewrite In, Up, Wt, Mn. reflexivity.
Qed.

(** [k] steps up from level [l]. *)
Lemma pulse_climb (k : nat) : forall w tr w' l,
  run w tr w' -> cfg (led w) -> ledPulseIncrement (led w) = 1 ->
  ledLevel (led w) = l -> 0 <= l -> l + Z.of_nat k <= mx ->
  (k <= length tr)%nat ->
  exists t1 t2 wm,
    tr = t1 ++ t2 /\ length t1 = k /\
    map pulse_step t1 =
      map (fun x => (x, upT, 1)) (zrange (l + 1) (l + Z.of_nat k)) /\
    cfg (led wm) /\ ledPulseIncrement (led wm) = 1 /\
    ledLevel (led wm) = l + Z.of_nat k /\ run wm t2 w'.
Proof.
  induction k as [|k IH]; intros w tr w' l R C I L L0 Lk Len.
  - exists [], tr, w. rewrite zrange_empty by lia. cbn. rewrite Z.add_0_r.
    conjs; (assumption || reflexivity).
  - destruct tr as [|x rest]; cbn in Len; try lia.
    destruct (run_cons_inv _ _ _ R x rest eq_refl) as [w1 [L1 [D1 [X R1]]]].
    rewrite <- L1 in C, I, L.
    pose proof (pulse_step_up w1 l D1 C I L) as P1.
    assert (P : pulse_step (led (loop w1)) = (l + 1, upT, 1))
      by (apply P1; lia).
    injection P as Lv Dl Ic.
    destruct (IH (loop w1) rest w' (l + 1) R1) as [t1 [t2 [wm H]]];
      try (assumption || lia).
    { apply pulse_cfg_loop. exact C. }
    destruct H as [E [Ln [Ph [Cm [Im [Lm Rm]]]]]].
    exists (x :: t1), t2, wm. conjs; try assumption.
    + rewrite E. reflexivity.
    + cbn. rewrite Ln. reflexivity.
    + rewrite (zrange_cons (l + 1)) by lia. cbn [map]. rewrite Ph, X.
      unfold pulse_step. rewrite Lv, Dl, Ic.
      replace (l + 1 + Z.of_nat k) with (l + Z.of_nat (S k)) by lia.
      reflexivity.
    + rewrite Lm. lia.
Qed.

(** [k] steps down from level [l]. *)
Lemma pulse_descent (k : nat) : forall w tr w' l,
  run w tr w' -> cfg (led w) -> ledPulseIncrement (led w) = -1 ->
  ledLevel (led w) = l -> l <= 255 -> mn <= l - Z.of_nat k ->
  (k <= length tr)%nat ->
  exists t1 t2 wm,
    tr = t1 ++ t2 /\ length t1 = k /\
    map pulse_step t1 =
      map (fun x => (x, downT, -1)) (rev (zrange (l - Z.of_nat k) (l - 1))) /\
    cfg (led wm) /\ ledPulseIncrement (led wm) = -1 /\
    ledLevel (led wm) = l - Z.of_nat k /\ run wm t2 w'.
Proof.
  induction k as [|k IH]; intros w tr w' l R C I L L0 Lk Len.
  - exists [], tr, w. rewrite zrange_empty by lia. cbn. rewrite Z.sub_0_r.
    conjs; (assumption || reflexivity).
  - destruct tr as [|x rest]; cbn in Len; try lia.
    destruct (run_cons_inv _ _ _ R x rest eq_refl) as [w1 [L1 [D1 [X R1]]]].
    rewrite <- L1 in C, I, L.
    pose proof (pulse_step_down w1 l D1 C I L) as P1.
    assert (P : pulse_step (led (loop w1)) = (l - 1, downT, -1))
      by (apply P1; lia).
    injection P as Lv Dl Ic.
    destruct (IH (loop w1) rest w' (l - 1) R1) as [t1 [t2 [wm H]]];
      try (assumption || lia).
    { apply pulse_cfg_loop. exact C. }
    destruct H as [E [Ln [Ph [Cm [Im [Lm Rm]]]]]].
    exists (x :: t1), t2, wm. conjs; try assumption.
    + rewrite E. reflexivity.
    + cbn. rewrite Ln. reflexivity.
    + rewrite (zrange_snoc _ (l - 1)) by lia. rewrite rev_app_distr.
      cbn [rev app map]. rewrite Ph, X.
      unfold pulse_step. rewrite Lv, Dl, Ic.
      replace (l - 1 - Z.of_nat k) with (l - Z.of_nat (S k)) by lia.
      reflexivity.
    + rewrite Lm. lia.
Qed.

(** From the trough, ascending: the climb and the reversal at the peak. *)
Lemma pulse_up_half w tr w' :
  run w tr w' -> cfg (led w) -> ledPulseIncrement (led w) = 1 ->
  ledLevel (led w) = mn ->
  (Z.to_nat (mx - mn + 1) <= length tr)%nat ->
  exists t1 t2 wm,
    tr = t1 ++ t2 /\ length t1 = Z.to_nat (mx - mn + 1) /\
    map pulse_step t1 =
      map (fun x => (x, upT, 1)) (zrange (mn + 1) mx)
      ++ [(mx, peak_delay inc downT waitT, -1)] /\
    cfg (led wm) /\ ledPulseIncrement (led wm) = -1 /\
    ledLevel (led wm) = mx /\ run wm t2 w'.
Proof.
  intros R C I L Len.
  destruct (pulse_climb (Z.to_nat (mx - mn)) w tr w' mn R C I L)
    as [t1 [t2 [wa H]]]; try lia.
  destruct H as [E [Ln [Ph [Ca [Ia [La Ra]]]]]].
  replace (mn + Z.of_nat (Z.to_nat (mx - mn))) with mx in * by lia.
  destruct t2 as [|x rest].
  { rewrite E, length_app, Ln in Len. cbn in Len. lia. }
  destruct (run_cons_inv _ _ _ Ra x rest eq_refl) as [w1 [L1 [D1 [X R1]]]].
  rewrite <- L1 in Ca, Ia, La.
  pose proof (pulse_step_peak w1 D1 Ca Ia La) as P.
  exists (t1 ++ [x]), rest, (loop w1). conjs.
  - rewrite E, <- app_assoc. reflexivity.
  - rewrite length_app, Ln. cbn [length]. lia.
  - rewrite map_app, Ph. cbn [map]. rewrite X, P. reflexivity.
  - apply pulse_cfg_loop. exact Ca.
  - injection P as _ _ Ic. exact Ic.
  - injection P as Lv _ _. exact Lv.
  - exact R1.
Qed.

(** From the peak, descending: the descent and the reversal at the trough. *)
Lemma pulse_down_half w tr w' :
  run w tr w' -> cfg (led w) -> ledPulseIncrement (led w) = -1 ->
  ledLevel (led w) = mx ->
  (Z.to_nat (mx - mn + 1) <= length tr)%nat ->
  exists t1 t2 wm,
    tr = t1 ++ t2 /\ length t1 = Z.to_nat (mx - mn + 1) /\
    map pulse_step t1 =
      map (fun x => (x, downT, -1)) (rev (zrange mn (mx - 1)))
      ++ [(mn, trough_delay inc upT waitT, 1)] /\
    cfg (led wm) /\ ledPulseIncrement (led wm) = 1 /\
    ledLevel (led wm) = mn /\ run wm t2 w'.
Proof.
  intros R C I L Len.
  destruct (pulse_descent (Z.to_nat (mx - mn)) w tr w' mx R C I L)
    as [t1 [t2 [wa H]]]; try lia.
  destruct H as [E [Ln [Ph [Ca [Ia [La Ra]]]]]].
  replace (mx - Z.of_nat (Z.to_nat (mx - mn))) with mn in * by lia.
  destruct t2 as [|x rest].
  { rewrite E, length_app, Ln in Len. cbn in Len. lia. }
  destruct (run_cons_inv _ _ _ Ra x rest eq_refl) as [w1 [L1 [D1 [X R1]]]].
  rewrite <- L1 in Ca, Ia, La.
  pose proof (pulse_step_trough w1 D1 Ca Ia La) as P.
  exists (t1 ++ [x]), rest, (loop w1). conjs.
  - rewrite E, <- app_assoc. reflexivity.
  - rewrite length_app, Ln. cbn [length]. lia.
  - rewrite map_app, Ph. cbn [map]. rewrite X, P. reflexivity.
  - apply pulse_cfg_loop. exact Ca.
  - injection P as _ _ Ic. exact Ic.
  - injection P as Lv _ _. exact Lv.
  - exact R1.
Qed.

End Pulse.

Lemma setPulse_start inc upT downT waitT mn mx (w0 : World) :
  let w := setPulse inc upT downT waitT mn mx w0 in
  pulsing inc upT downT waitT mn mx (led w) /\
  pulse_step (led w) = (if inc then (mn, upT, 1) else (mx, downT, -1)) /\
  pins w = pins w0 ++ [levelCall (led w) (ledLevel (led w))].
Proof.
  unfold setPulse, pulsing, pulse_step. cbn.
  destruct inc; cbn; rewrite setLed_eq; cbn; conjs; reflexivity.
Qed.

(** A whole period from the trough, and from the peak. *)
Lemma pulse_period_from_trough inc upT downT waitT mn mx w tr w' :
  0 <= mn -> mn < mx -> mx <= 255 ->
  run w tr w' -> pulsing inc upT downT waitT mn mx (led w) ->
  ledPulseIncrement (led w) = 1 -> ledLevel (led w) = mn ->
  length tr = Z.to_nat (2 * (mx - mn + 1)) ->
  map pulse_step tr = pulse_period inc upT downT waitT mn mx.
Proof.
  intros H0 H1 H2 R C I L Len.
  destruct (pulse_up_half inc upT downT waitT mn mx H0 H1 H2 w tr w' R C I L)
    as [t1 [t2 [wa H]]]; [lia|].
  destruct H as [E [Ln [Ph [Ca [Ia [La Ra]]]]]].
  destruct (pulse_down_half inc upT downT waitT mn mx H0 H1 H2 wa t2 w'
              Ra Ca Ia La) as [t3 [t4 [wb H]]].
  { rewrite E, length_app in Len. lia. }
  destruct H as [E' [Ln' [Ph' _]]].
  assert (t4 = []).
  { rewrite E, E', !length_app in Len. destruct t4; [reflexivity|].
    cbn [length] in Len. lia. }
  subst t4. rewrite app_nil_r in E'. subst t2 tr.
  rewrite map_app, Ph, Ph'. unfold pulse_period.
  rewrite <- !app_assoc. reflexivity.
Qed.

Lemma pulse_period_from_peak inc upT downT waitT mn mx w tr w' :
  0 <= mn -> mn < mx -> mx <= 255 ->
  run w tr w' -> pulsing inc upT downT waitT mn mx (led w) ->
  ledPulseIncrement (led w) = -1 -> ledLevel (led w) = mx ->
  length tr = Z.to_nat (2 * (mx - mn + 1)) ->
  map pulse_step tr =
    map (fun l => (l, downT, -1)) (rev (zrange mn (mx - 1)))
    ++ [(mn, trough_delay inc upT waitT, 1)]
    ++ map (fun l => (l, upT, 1)) (zrange (mn + 1) mx)
    ++ [(mx, peak_delay inc downT waitT, -1)].
Proof.
  intros H0 H1 H2 R C I L Len.
  destruct (pulse_down_half inc upT downT waitT mn mx H0 H1 H2 w tr w' R C I L)
    as [t1 [t2 [wa H]]]; [lia|].
  destruct H as [E [Ln [Ph [Ca [Ia [La Ra]]]]]].
  destruct (pulse_up_half inc upT downT waitT mn mx H0 H1 H2 wa t2 w'
              Ra Ca Ia La) as [t3 [t4 [wb H]]].
  { rewrite E, length_app in Len. lia. }
  destruct H as [E' [Ln' [Ph' _]]].
  assert (t4 = []).
  { rewrite E, E', !length_app in Len. destruct t4; [reflexivity|].
    cbn [length] in Len. lia. }
  subst t4. rewrite app_nil_r in E'. subst t2 tr.
  rewrite map_app, Ph, Ph'. rewrite <- !app_assoc. reflexivity.
Qed.

Lemma heading_of_step (tr : list FF_LED) :
  map heading tr = map (fun s => (fst (fst s), snd s)) (map pulse_step tr).
Proof. rewrite map_map. reflexivity. Qed.

Lemma ascending_leg_split (mn mx : Z) :
  mn <= mx ->
  ascending_leg mn mx = (mn, 1) :: map (fun l => (l, 1)) (zrange (mn + 1) mx).
Proof. intros H. unfold ascending_leg. rewrite zrange_cons by lia. reflexivity. Qed.

Lemma descending_leg_split (mn mx : Z) :
  mn <= mx ->
  descending_leg mn mx =
    (mx, -1) :: map (fun l => (l, -1)) (rev (zrange mn (mx - 1))).
Proof.
  intros H. unfold descending_leg. rewrite zrange_snoc by lia.
  rewrite rev_app_distr. reflexivity.
Qed.

(** One period of a pulse, from the state [setPulse] leaves. *)
Lemma sweep_run (inc : bool) (upT downT waitT mn mx : Z)
    (w0 w : World) (tr : list FF_LED) (w' : World) :
  0 <= mn -> mn < mx -> mx <= 255 ->
  pulsing inc upT downT waitT mn mx (led w) ->
  pulse_step (led w) = (if inc then (mn, upT, 1) else (mx, downT, -1)) ->
  pins w = pins w0 ++ [levelCall (led w) (ledLevel (led w))] ->
  run w tr w' ->
  length tr = Z.to_nat (2 * (mx - mn + 1)) ->
  map heading (led w :: tr) =
    (if inc
     then ascending_leg mn mx ++ descending_leg mn mx ++ [(mn, 1)]
     else descending_leg mn mx ++ ascending_leg mn mx ++ [(mx, -1)]) /\
  pins w' =
    pins w0 ++ map (fun h => levelCall (led w) (fst h))
                 (map heading (led w :: tr)).
Proof.
  intros H0 H1 H2 C P Pw R Len. split.
  - cbn [map]. rewrite heading_of_step.
    destruct inc; injection P as Lv Dl Ic.
    + rewrite (pulse_period_from_trough true upT downT waitT mn mx w tr w')
        by assumption.
      unfold heading, pulse_period. rewrite Lv, Ic.
      rewrite !map_app, !map_map. cbn [map fst snd app].
      rewrite ascending_leg_split, descending_leg_split by lia.
      cbn [app]. rewrite <- ?app_assoc. reflexivity.
    + rewrite (pulse_period_from_peak false upT downT waitT mn mx w tr w')
        by assumption.
      unfold heading. rewrite Lv, Ic.
      rewrite !map_app, !map_map. cbn [map fst snd app].
      rewrite ascending_leg_split, descending_leg_split by lia.
      cbn [app]. rewrite <- ?app_assoc. reflexivity.
  - rewrite (run_calls w tr w' R) by (destruct C as [M _]; congruence).
    rewrite Pw, <- app_assoc. f_equal. cbn [map app]. f_equal.
    rewrite !map_map. apply map_ext. intros o. unfold phase, heading.
    cbn [fst]. reflexivity.
Qed.

(** C3: after [setPulse] with [minLevel < maxLevel], whatever the clock
    does, the due polls of one period take the channel through an ascending
    leg and a descending leg (in this order when [increase] is set, in the
    other order otherwise), a commit belonging to the leg of the direction
    the sweep has once it is made; each leg holds every level of
    [minLevel .. maxLevel] exactly once, the period ends where it began, and
    every commit is one call on the pins. *)
Theorem pulse_sweep (inc : bool) (upT downT waitT mn mx : Z)
    (w0 : World) (tr : list FF_LED) (w' : World) :
  is_uint8 mn -> is_uint8 mx -> mn < mx ->
  let w := setPulse inc upT downT waitT mn mx w0 in
  run w tr w' ->
  length tr = Z.to_nat (2 * (mx - mn + 1)) ->
  map heading (led w :: tr) =
    (if inc
     then ascending_leg mn mx ++ descending_leg mn mx ++ [(mn, 1)]
     else descending_leg mn mx ++ ascending_leg mn mx ++ [(mx, -1)]) /\
  (NoDup (ascending_leg mn mx) /\ NoDup (descending_leg mn mx) /\
   (forall l, In (l, 1) (ascending_leg mn mx) <-> mn <= l <= mx) /\
   (forall l, In (l, -1) (descending_leg mn mx) <-> mn <= l <= mx)) /\
  pins w' =
    pins w0 ++ map (fun h => levelCall (led w) (fst h))
                 (map heading (led w :: tr)).
Proof.
  intros [H0 _] [_ H2] H1 w R Len.
  destruct (setPulse_start inc upT downT waitT mn mx w0) as [C [P Pw]].
  destruct (sweep_run inc upT downT waitT mn mx w0 w tr w'
              H0 H1 H2 C P Pw R Len) as [A B].
  split; [exact A|]. split; [apply legs_once | exact B].
Qed.

(** [setPulse(true, 20, 20, 1000, 2, 5)]: eight due polls make a period. *)
Lemma pulse_sweep_witness :
  let w0 := begin (power_on (ticking 2000) (FF_LED_new 2 false 0)) in
  let w := setPulse true 20 20 1000 2 5 w0 in
  map heading (led w :: trace 8 w) =
    [(2, 1); (3, 1); (4, 1); (5, 1);
     (5, -1); (4, -1); (3, -1); (2, -1); (2, 1)] /\
  pins (polls 8 w) =
    pins w0 ++ [analogWrite 2 2; analogWrite 2 3; analogWrite 2 4;
                analogWrite 2 5; analogWrite 2 5; analogWrite 2 4;
                analogWrite 2 3; analogWrite 2 2; analogWrite 2 2].
Proof.
  cbn zeta.
  destruct (pulse_sweep true 20 20 1000 2 5
              (begin (power_on (ticking 2000) (FF_LED_new 2 false 0)))
              (trace 8 (setPulse true 20 20 1000 2 5
                 (begin (power_on (ticking 2000) (FF_LED_new 2 false 0)))))
              (polls 8 (setPulse true 20 20 1000 2 5
                 (begin (power_on (ticking 2000) (FF_LED_new 2 false 0))))))
    as [H [_ W]].
  - unfold is_uint8. lia.
  - unfold is_uint8. lia.
  - lia.
  - apply run_polls.
  - vm_compute. reflexivity.
  - split; [exact H|]. rewrite W. vm_compute. reflexivity.
Defined.

(** ** Where the pulse pauses *)

Lemma pulse_scenario_run (w : World) (tr : list FF_LED) (w' : World) :
  pulsing true 20 20 1000 0 10 (led w) ->
  pulse_step (led w) = (0, 20, 1) ->
  run w tr w' -> length tr = 22%nat ->
  map pulse_step (led w :: tr) =
    [(0, 20, 1); (1, 20, 1); (2, 20, 1); (3, 20, 1); (4, 20, 1); (5, 20, 1);
     (6, 20, 1); (7, 20, 1); (8, 20, 1); (9, 20, 1); (10, 20, 1);
     (10, 20, -1); (9, 20, -1); (8, 20, -1); (7, 20, -1); (6, 20, -1);
     (5, 20, -1); (4, 20, -1); (3, 20, -1); (2, 20, -1); (1, 20, -1);
     (0, 20, -1); (0, 1000, 1)].
Proof.
  intros C P R Len. cbn [map]. rewrite P. f_equal.
  injection P as Lv _ Ic.
  rewrite (pulse_period_from_trough true 20 20 1000 0 10 w tr w');
    try assumption; try lia; reflexivity.
Qed.

(** C1 as stated fails: in [setPulse(true, 20, 20, 1000, 0, 10)] the poll
    that finds the level at 10 while ascending arms [downTime] (20 ms), not
    [waitTime]; the 1000 ms are armed at the trough, by the poll that finds
    the level at 0 while descending. *)
Lemma pulse_pause_not_at_peak :
  let w := setPulse true 20 20 1000 0 10
             (begin (power_on (ticking 2000) (FF_LED_new 2 false 0))) in
  let top := polls 10 w in
  let bottom := polls 21 w in
  (ledIncrease (led top) = true /\ ledPulseIncrement (led top) = 1 /\
   ledLevel (led top) = 10 /\ ledMaxLevel (led top) = 10 /\
   due top = true /\
   pulse_step (led (loop top)) = (10, 20, -1) /\
   ledDelay (led (loop top)) <> ledWaitDelay (led top)) /\
  (ledIncrease (led bottom) = true /\ ledPulseIncrement (led bottom) = -1 /\
   ledLevel (led bottom) = 0 /\ ledMinLevel (led bottom) = 0 /\
   due bottom = true /\
   pulse_step (led (loop bottom)) = (0, 1000, 1) /\
   ledDelay (led (loop bottom)) <> ledOnDelay (led bottom)).
Proof.
  vm_compute. repeat split; discriminate.
Qed.

(** C1, amended: when ascending would overshoot [maxLevel], the poll
    commits [maxLevel], turns the increment to -1 and arms [downTime] if
    [increase] is set, [waitTime] if it is not; when descending would
    undershoot [minLevel], it commits [minLevel], turns the increment to +1
    and arms [waitTime] if [increase] is set, [upTime] if it is not.  So
    [setPulse(true, 20, 20, 1000, 0, 10)] shows 0, 1, ..., 10 each for 20 ms,
    10 again for 20 ms once turned downwards, 9, ..., 0 each for 20 ms, then
    0 again for 1000 ms, turned upwards: the pause is at the trough. *)
Theorem pulse_reversal_pause :
  (forall w,
     due w = true -> ledMode (led w) = pulse ->
     ledPulseIncrement (led w) > 0 ->
     ledLevel (led w) + ledPulseIncrement (led w) > ledMaxLevel (led w) ->
     ledLevel (led (loop w)) = ledMaxLevel (led w) /\
     ledPulseIncrement (led (loop w)) = -1 /\
     ledDelay (led (loop w)) =
       (if ledIncrease (led w) then ledOffDelay (led w)
        else ledWaitDelay (led w))) /\
  (forall w,
     due w = true -> ledMode (led w) = pulse ->
     ledPulseIncrement (led w) <= 0 ->
     ledLevel (led w) + ledPulseIncrement (led w) < ledMinLevel (led w) ->
     ledLevel (led (loop w)) = ledMinLevel (led w) /\
     ledPulseIncrement (led (loop w)) = 1 /\
     ledDelay (led (loop w)) =
       (if ledIncrease (led w) then ledWaitDelay (led w)
        else ledOnDelay (led w))) /\
  (forall w0 tr w',
     run (setPulse true 20 20 1000 0 10 w0) tr w' ->
     length tr = 22%nat ->
     map pulse_step (led (setPulse true 20 20 1000 0 10 w0) :: tr) =
       [(0, 20, 1); (1, 20, 1); (2, 20, 1); (3, 20, 1); (4, 20, 1);
        (5, 20, 1); (6, 20, 1); (7, 20, 1); (8, 20, 1); (9, 20, 1);
        (10, 20, 1);
        (10, 20, -1); (9, 20, -1); (8, 20, -1); (7, 20, -1); (6, 20, -1);
        (5, 20, -1); (4, 20, -1); (3, 20, -1); (2, 20, -1); (1, 20, -1);
        (0, 20, -1); (0, 1000, 1)]).
Proof.
  split; [|split].
  - intros w D M I L. rewrite (pulse_fire_peak w D M I L). cbn.
    conjs; reflexivity.
  - intros w D M I L. rewrite (pulse_fire_trough w D M I L). cbn.
    conjs; reflexivity.
  - intros w0 tr w' R Len.
    destruct (setPulse_start true 20 20 1000 0 10 w0) as [C [P _]].
    exact (pulse_scenario_run _ tr w' C P R Len).
Qed.

(** The scenario under a clock that advances two seconds from one reading
    to the next: the poll at the peak, the poll at the trough, the period. *)
Lemma pulse_reversal_pause_witness :
  let w := setPulse true 20 20 1000 0 10
             (begin (power_on (ticking 2000) (FF_LED_new 2 false 0))) in
  (ledLevel (led (loop (polls 10 w))) = 10 /\
   ledPulseIncrement (led (loop (polls 10 w))) = -1 /\
   ledDelay (led (loop (polls 10 w))) = 20) /\
  (ledLevel (led (loop (polls 21 w))) = 0 /\
   ledPulseIncrement (led (loop (polls 21 w))) = 1 /\
   ledDelay (led (loop (polls 21 w))) = 1000) /\
  map pulse_step (led w :: trace 22 w) =
    [(0, 20, 1); (1, 20, 1); (2, 20, 1); (3, 20, 1); (4, 20, 1);
     (5, 20, 1); (6, 20, 1); (7, 20, 1); (8, 20, 1); (9, 20, 1);
     (10, 20, 1);
     (10, 20, -1); (9, 20, -1); (8, 20, -1); (7, 20, -1); (6, 20, -1);
     (5, 20, -1); (4, 20, -1); (3, 20, -1); (2, 20, -1); (1, 20, -1);
     (0, 20, -1); (0, 1000, 1)].
Proof.
  intros w. destruct pulse_reversal_pause as [A [B C]].
  split; [|split].
  - destruct (A (polls 10 w)) as [L [I D]];
      [vm_compute; reflexivity .. |].
    rewrite L, I, D. vm_compute. conjs; reflexivity.
  - destruct (B (polls 21 w)) as [L [I D]];
      [vm_compute; reflexivity | vm_compute; reflexivity
      | vm_compute; discriminate | vm_compute; reflexivity |].
    rewrite L, I, D. vm_compute. conjs; reflexivity.
  - apply (C _ (trace 22 w) (polls 22 w)).
    + apply run_polls.
    + vm_compute. reflexivity.
Defined.

(** * Further properties *)

(** ** Commits *)

Lemma commitCall_on_pin (o : FF_LED) (p : Z) :
  ledPin o = p -> isWriteOn p (commitCall o).
Proof.
  intros <-. unfold commitCall.
  destruct (ledLevel o =? 0); [reflexivity|].
  destruct (ledLevel o =? 255); reflexivity.
Qed.

Lemma commitCall_mid (o : FF_LED) :
  0 < ledLevel o < 255 ->
  commitCall o =
    analogWrite (ledPin o)
      (if ledReverted o then 255 - ledLevel o else ledLevel o).
Proof.
  intros H. unfold commitCall.
  destruct (Z.eqb_spec (ledLevel o) 0); [lia|].
  destruct (Z.eqb_spec (ledLevel o) 255); [lia|]. reflexivity.
Qed.

(** X1: a level strictly between 0 and 255 is always written with
    [analogWrite], the duty cycle being the level, or 255 minus the level on
    a reverted channel; it lies in 1..254 and does not depend on the bounds
    a previous [setBlink] or [setPulse] stored. *)
Theorem mid_level_duty_cycle (w : World) (_level : Z) :
  0 < _level < 255 ->
  exists v,
    pins (setFixed _level w) = pins w ++ [analogWrite (ledPin (led w)) v] /\
    v = (if ledReverted (led w) then 255 - _level else _level) /\
    1 <= v <= 254 /\
    (forall _delay, pins (setLed _level _delay w) =
                    pins w ++ [analogWrite (ledPin (led w)) v]).
Proof.
  intros H.
  exists (if ledReverted (led w) then 255 - _level else _level). conjs.
  - unfold setFixed. rewrite setLed_eq. cbn [pins]. f_equal.
    rewrite commitCall_mid by exact H. reflexivity.
  - reflexivity.
  - destruct (ledReverted (led w)); lia.
  - destruct (ledReverted (led w)); lia.
  - intros d. rewrite setLed_eq. cbn [pins]. f_equal.
    rewrite commitCall_mid by exact H. reflexivity.
Qed.

(** Level 100 on a reverted channel whose bounds were left at 10 and 200. *)
Lemma mid_level_duty_cycle_witness :
  let w := setBlink 1 100 50 500 10 200
             (begin (power_on (ticking 1000) (FF_LED_new 2 true 0))) in
  exists v, pins (setFixed 100 w) = pins w ++ [analogWrite 2 v] /\ v = 155.
Proof.
  intros w.
  destruct (mid_level_duty_cycle w 100) as [v [P [V _]]]; [lia|].
  exists v. split; [exact P | exact V].
Defined.

(** Normal form of a chain of field assignments. *)
Ltac assign_norm :=
  cbv [untimed Assign.obj Assign.BlinksNeeded Assign.BlinksDone
       Assign.MinLevel Assign.MaxLevel Assign.Level Assign.Increase
       Assign.PulseIncrement Assign.Mode Assign.OnDelay Assign.OffDelay
       Assign.WaitDelay Assign.Delay Assign.LastTimeChanged
       ledPin ledReverted ledBlinksNeeded ledBlinksDone ledMinLevel
       ledMaxLevel ledLevel ledIncrease ledPulseIncrement ledMode
       ledOnDelay ledOffDelay ledWaitDelay ledDelay ledLastTimeChanged
       led clock reads pins].

(** X2: [setFixed(L)] called twice in a row leaves the object the first
    call left, but for the timestamp, and repeats the very same call on the
    pins: no toggling. *)
Theorem setFixed_twice (w : World) (_level : Z) :
  untimed (led (setFixed _level (setFixed _level w)))
    = untimed (led (setFixed _level w)) /\
  ledMode (led (setFixed _level w)) = fixed /\
  phase (led (setFixed _level w)) = (_level, FF_LED_WAIT_FOR_EVER) /\
  pins (setFixed _level (setFixed _level w)) =
    pins w ++ [levelCall (led w) _level; levelCall (led w) _level].
Proof.
  crush_world w. unfold setFixed. cbn. rewrite setLed_eq. cbn.
  rewrite setLed_eq. cbn. conjs.
  - assign_norm. reflexivity.
  - reflexivity.
  - reflexivity.
  - rewrite <- app_assoc. f_equal.
Qed.

(** X15: each setter takes one reading of the clock, stores it as the time of
    the last change, makes exactly one call on the pins, a level write on
    the object's own pin, and changes neither the pin nor the polarity. *)
Theorem setters_commit_once (w : World) :
  let once (w' : World) :=
    reads w' = S (reads w) /\ clock w' = clock w /\
    ledLastTimeChanged (led w') = to_ulong (clock w (reads w)) /\
    ledPin (led w') = ledPin (led w) /\
    ledReverted (led w') = ledReverted (led w) /\
    pins w' = pins w ++ [commitCall (led w')] /\
    isWriteOn (ledPin (led w)) (commitCall (led w')) in
  (forall l, once (setFixed l w)) /\
  (forall n onT offT waitT mn mx, once (setBlink n onT offT waitT mn mx w)) /\
  (forall inc upT downT waitT mn mx, once (setPulse inc upT downT waitT mn mx w)).
Proof.
  cbv zeta. conjs.
  - intros l. unfold setFixed. rewrite setLed_eq. cbn -[commitCall].
    conjs; try reflexivity. apply commitCall_on_pin. reflexivity.
  - intros n onT offT waitT mn mx. unfold setBlink. cbn -[commitCall].
    destruct (negb (n =? 0)); rewrite setLed_eq; cbn -[commitCall];
      conjs; try reflexivity; apply commitCall_on_pin; reflexivity.
  - intros inc upT downT waitT mn mx. unfold setPulse. cbn -[commitCall].
    destruct inc; cbn -[commitCall]; rewrite setLed_eq; cbn -[commitCall];
      conjs; try reflexivity; apply commitCall_on_pin; reflexivity.
Qed.

(** ** Polls *)

Lemma polls_settings (p : nat) : forall w,
  settings (led (polls p w)) = settings (led w) /\
  clock (polls p w) = clock w.
Proof.
  induction p as [|p IH]; intros w; [split; reflexivity|].
  change (polls (S p) w) with (polls p (loop w)).
  destruct (IH (loop w)) as [S1 C1].
  rewrite S1, C1, loop_settings, loop_clock. split; reflexivity.
Qed.

(** X5: whatever the clock does, no number of polls changes the pin, the
    polarity, the mode, the blink count, the [increase] flag, the three
    configured delays or the two level bounds: between two calls of a
    setter, [loop()] only moves the level, the armed delay, the timestamp,
    the blink counter and the pulse direction. *)
Theorem polls_keep_settings (p : nat) (w : World) :
  ledPin (led (polls p w)) = ledPin (led w) /\
  ledReverted (led (polls p w)) = ledReverted (led w) /\
  ledMode (led (polls p w)) = ledMode (led w) /\
  ledBlinksNeeded (led (polls p w)) = ledBlinksNeeded (led w) /\
  ledIncrease (led (polls p w)) = ledIncrease (led w) /\
  ledOnDelay (led (polls p w)) = ledOnDelay (led w) /\
  ledOffDelay (led (polls p w)) = ledOffDelay (led w) /\
  ledWaitDelay (led (polls p w)) = ledWaitDelay (led w) /\
  ledMinLevel (led (polls p w)) = ledMinLevel (led w) /\
  ledMaxLevel (led (polls p w)) = ledMaxLevel (led w).
Proof.
  destruct (polls_settings p w) as [S _]. unfold settings in S.
  injection S as E1 E2 E3 E4 E5 E6 E7 E8 E9 E10.
  conjs; assumption.
Qed.

(** X6: one poll makes at most one call on the pins.  Either it takes one
    reading of the clock and leaves the object and the pins as they were,
    or it was due in blink or pulse mode: then it takes a second reading,
    stores that one as the time of the last change, and makes exactly one
    call, a level write on the object's own pin. *)
Theorem poll_commits_at_most_once (w : World) :
  (led (loop w) = led w /\ pins (loop w) = pins w /\
   reads (loop w) = S (reads w)) \/
  (due w = true /\ ledMode (led w) <> fixed /\
   reads (loop w) = S (S (reads w)) /\
   ledLastTimeChanged (led (loop w)) = stamp w /\
   exists c, pins (loop w) = pins w ++ [c] /\ isWriteOn (ledPin (led w)) c).
Proof.
  unfold due, loop, stamp. crush_world w.
  destruct (elapsed (to_ulong (clock0 reads0)) ledLastTimeChanged0
            >? ledDelay0); [|left; conjs; reflexivity].
  destruct ledMode0; [left; conjs; reflexivity | |];
    right; loop_cases; rewrite ?setLed_eq; cbn;
    (conjs; [reflexivity | discriminate | reflexivity | reflexivity |
             eexists; split; [reflexivity |
                              apply commitCall_on_pin; reflexivity]]).
Qed.

(** X4: in fixed mode a poll never touches the object or the pins, even
    when its due test succeeds, as it does on an object that was constructed
    but on which [begin()] was not yet called (delay 0). *)
Theorem fixed_mode_polls_idle (p : nat) (w : World) :
  ledMode (led w) = fixed ->
  led (polls p w) = led w /\ pins (polls p w) = pins w.
Proof. apply fixed_polls. Qed.

(** A freshly constructed object, polled five times; every poll is due. *)
Lemma fixed_mode_polls_idle_witness :
  let w := power_on (ticking 10) (FF_LED_new 2 false 128) in
  due (loop w) = true /\
  led (polls 5 w) = led w /\ pins (polls 5 w) = [].
Proof.
  intros w. split; [vm_compute; reflexivity|].
  apply (fixed_mode_polls_idle 5 w). reflexivity.
Defined.

(** X3: [begin()] keeps the mode and every other setting, writes the
    current level, then sets the pin as output; as it arms the longest
    delay, called on a blinking or pulsing channel it halts the effect: no
    poll changes the object or the pins, though the mode is still blink or
    pulse. *)
Theorem begin_halts_effect (w : World) (p : nat) :
  settings (led (begin w)) = settings (led w) /\
  ledLevel (led (begin w)) = ledLevel (led w) /\
  pins (begin w) =
    pins w ++ [levelCall (led w) (ledLevel (led w));
               pinMode (ledPin (led w)) OUTPUT] /\
  ledMode (led (polls p (begin w))) = ledMode (led w) /\
  untimed (led (polls p (begin w))) =
    untimed (Assign.Delay FF_LED_WAIT_FOR_EVER (led w)) /\
  pins (polls p (begin w)) = pins (begin w).
Proof.
  assert (D : ledDelay (led (begin w)) = FF_LED_WAIT_FOR_EVER).
  { unfold begin. rewrite setLed_eq. reflexivity. }
  destruct (forever_polls p (begin w) D) as [L P]. rewrite L, P.
  unfold begin. rewrite setLed_eq. crush_world w.
  conjs; try reflexivity.
  rewrite <- app_assoc. f_equal.
Qed.

(** ** More on blinking *)

Lemma blink_counter_loop (n mn mx : Z) (w : World) :
  0 <= n <= 255 -> mn <> mx ->
  ledMode (led w) = blink /\ ledBlinksNeeded (led w) = n /\
  ledMinLevel (led w) = mn /\ ledMaxLevel (led w) = mx /\
  ((ledLevel (led w) = mx /\ 0 <= ledBlinksDone (led w) < n) \/
   (ledLevel (led w) = mn /\ 0 <= ledBlinksDone (led w) <= n)) ->
  ledMode (led (loop w)) = blink /\ ledBlinksNeeded (led (loop w)) = n /\
  ledMinLevel (led (loop w)) = mn /\ ledMaxLevel (led (loop w)) = mx /\
  ((ledLevel (led (loop w)) = mx /\ 0 <= ledBlinksDone (led (loop w)) < n) \/
   (ledLevel (led (loop w)) = mn /\ 0 <= ledBlinksDone (led (loop w)) <= n)).
Proof.
  unfold loop. crush_world w. intros Hn Hl [M [Nd [Mn [Mx I]]]]. subst.
  loop_cases; rewrite ?setLed_eq; cbn; zbool;
    rewrite ?to_uint8_small by lia; conjs; try reflexivity; lia.
Qed.

(** X7: after [setBlink] with two different levels, the blink counter stays
    between 0 and the requested count through any number of polls, whatever
    the clock does; in particular its increment never wraps. *)
Theorem blink_counter_bounded (n onT offT waitT mn mx : Z) (w0 : World)
    (p : nat) :
  is_uint8 n -> mn <> mx ->
  0 <= ledBlinksDone (led (polls p (setBlink n onT offT waitT mn mx w0))) <= n.
Proof.
  intros Hn Hl.
  assert (I : forall q w,
            ledMode (led w) = blink /\ ledBlinksNeeded (led w) = n /\
            ledMinLevel (led w) = mn /\ ledMaxLevel (led w) = mx /\
            ((ledLevel (led w) = mx /\ 0 <= ledBlinksDone (led w) < n) \/
             (ledLevel (led w) = mn /\ 0 <= ledBlinksDone (led w) <= n)) ->
            0 <= ledBlinksDone (led (polls q w)) <= n).
  { induction q as [|q IH]; intros w H.
    - cbn. destruct H as [_ [_ [_ [_ [[_ B] | [_ B]]]]]]; lia.
    - apply (IH (loop w)), blink_counter_loop; assumption. }
  apply I. unfold setBlink. cbn.
  destruct (Z.eqb_spec n 0); cbn; rewrite setLed_eq; cbn;
    conjs; try reflexivity; unfold is_uint8 in Hn; [right | left]; lia.
Qed.

(** Three blinks, polled twenty times. *)
Lemma blink_counter_bounded_witness :
  let w0 := begin (power_on (ticking 70) (FF_LED_new 2 false 0)) in
  0 <= ledBlinksDone (led (polls 20 (setBlink 3 100 50 500 0 255 w0))) <= 3.
Proof.
  intros w0. apply blink_counter_bounded; unfold is_uint8; lia.
Defined.

Lemma equal_levels_run n onT offT waitT m w tr w' :
  run w tr w' ->
  blinking n onT offT waitT m m (led w) -> ledLevel (led w) = m ->
  Forall (fun o => phase o = (m, offT)) tr /\
  ledLevel (led w') = m /\
  ledBlinksDone (led w') mod 256 =
    (ledBlinksDone (led w) + Z.of_nat (length tr)) mod 256.
Proof.
  induction 1 as [w | w tr w' E R IH | w tr w' E R IH]; intros C L.
  - cbn. rewrite Z.add_0_r. conjs; [constructor | exact L | reflexivity].
  - destruct (loop_idle_led w E) as [L0 _]. rewrite <- L0 in C, L.
    destruct (IH C L) as [F [Lv B]]. rewrite L0 in B. conjs; assumption.
  - assert (F : led (loop w) =
                committed (stamp w) (ledMinLevel (led w))
                  (ledOffDelay (led w))
                  (Assign.BlinksDone (to_uint8 (ledBlinksDone (led w) + 1))
                     (led w))).
    { destruct C as [M [_ [_ [_ [_ [_ Mx]]]]]].
      apply blink_fire_on; [exact E | exact M | congruence]. }
    assert (C' : blinking n onT offT waitT m m (led (loop w))).
    { apply (blinking_settings _ _ _ _ _ _ (led w));
        [apply loop_settings | exact C]. }
    assert (P : phase (led (loop w)) = (m, offT)).
    { rewrite F. destruct C as [_ [_ [_ [Of [_ [Mn _]]]]]].
      unfold phase. cbn. rewrite Mn, Of. reflexivity. }
    destruct (IH C') as [Fa [Lv B]].
    { injection P as Lv _. exact Lv. }
    conjs; [constructor; assumption | exact Lv |].
    rewrite B, F. cbn [ledBlinksDone committed Assign.LastTimeChanged
                       Assign.Delay Assign.Level Assign.BlinksDone length].
    unfold to_uint8, UINT8_MOD. rewrite Zplus_mod_idemp_l.
    f_equal. lia.
Qed.

(** X8: [setBlink] with [minLevel = maxLevel]: whatever the count, every
    due poll takes the on-branch; it keeps the level, arms [offTime] (never
    [onTime], never [waitTime]) and increments the blink counter, which
    therefore counts the due polls modulo 256. *)
Theorem equal_levels_blink (n onT offT waitT m : Z)
    (w0 : World) (tr : list FF_LED) (w' : World) :
  run (setBlink n onT offT waitT m m w0) tr w' ->
  Forall (fun o => phase o = (m, offT)) tr /\
  ledLevel (led w') = m /\
  ledBlinksDone (led w') mod 256 = Z.of_nat (length tr) mod 256.
Proof.
  intros R.
  apply (equal_levels_run n onT offT waitT m _ tr w') in R.
  - destruct R as [F [L B]]. conjs; [exact F | exact L |].
    rewrite B. f_equal.
    unfold setBlink. cbn. destruct (negb (n =? 0)); rewrite setLed_eq;
      reflexivity.
  - unfold setBlink, blinking. cbn.
    destruct (negb (n =? 0)); rewrite setLed_eq; cbn; conjs; reflexivity.
  - unfold setBlink. cbn.
    destruct (negb (n =? 0)); rewrite setLed_eq; reflexivity.
Qed.

(** [setBlink(2, 100, 50, 500, 7, 7)]: four due polls. *)
Lemma equal_levels_blink_witness :
  let w := setBlink 2 100 50 500 7 7
             (begin (power_on (ticking 1000) (FF_LED_new 2 false 0))) in
  map phase (trace 4 w) = [(7, 50); (7, 50); (7, 50); (7, 50)] /\
  ledBlinksDone (led (polls 4 w)) mod 256 = 4.
Proof.
  intros w. split; [vm_compute; reflexivity|].
  destruct (equal_levels_blink 2 100 50 500 7
              (begin (power_on (ticking 1000) (FF_LED_new 2 false 0)))
              (trace 4 w) (polls 4 w) (run_polls 4 w)) as [_ [_ B]].
  etransitivity; [exact B | vm_compute; reflexivity].
Defined.

Lemma one_shot_run n onT offT mn mx w tr w' :
  1 <= n <= 255 -> mn < mx ->
  run w tr w' ->
  blinking n onT offT FF_LED_WAIT_FOR_EVER mn mx (led w) ->
  phase (led w) = (mx, onT) -> ledBlinksDone (led w) = 0 ->
  (length tr <= Z.to_nat (2 * n))%nat /\
  (length tr = Z.to_nat (2 * n) ->
   phase (led w') = (mn, FF_LED_WAIT_FOR_EVER)).
Proof.
  intros Hn Hl R C P B.
  destruct (Nat.lt_ge_cases (length tr) (Z.to_nat (2 * n))) as [Lt | Ge];
    [split; lia|].
  destruct (blink_pairs n onT offT FF_LED_WAIT_FOR_EVER mn mx Hn Hl
              (Z.to_nat (n - 1)) w tr w' 0 R C P B)
    as [t1 [t2 [wa H]]]; try lia.
  destruct H as [E [Ln [_ [Ca [Pa [Ba Ra]]]]]].
  assert (Len2 : (2 <= length t2)%nat).
  { rewrite E, length_app in Ge. lia. }
  destruct t2 as [|x [|y rest]]; cbn [length] in Len2; try lia.
  destruct (run_cons_inv _ _ _ Ra x (y :: rest) eq_refl)
    as [w1 [L1 [D1 [X R1]]]].
  assert (C1 : blinking n onT offT FF_LED_WAIT_FOR_EVER mn mx (led w1))
    by (rewrite L1; exact Ca).
  injection Pa as Lv Dl.
  destruct (blink_step_on n onT offT FF_LED_WAIT_FOR_EVER mn mx
              w1 (n - 1) D1 C1) as [P1 B1];
    [rewrite L1; exact Lv | rewrite L1, Ba; lia | lia |].
  destruct (run_cons_inv _ _ _ R1 y rest eq_refl) as [w2 [L2 [D2 [Y R2]]]].
  assert (C2 : blinking n onT offT FF_LED_WAIT_FOR_EVER mn mx (led w2))
    by (rewrite L2; apply cfg_loop; exact C1).
  destruct (blink_step_pause n onT offT FF_LED_WAIT_FOR_EVER mn mx Hl
              w2 D2 C2) as [P2 _].
  { rewrite L2. injection P1 as E1 _. exact E1. }
  { rewrite L2, B1. lia. }
  destruct rest as [|z rest].
  - destruct (run_nil_inv _ _ _ R2 eq_refl) as [Lw _].
    split; [rewrite E, length_app, Ln; cbn [length]; lia|].
    intros _. rewrite Lw. exact P2.
  - destruct (run_cons_inv _ _ _ R2 z rest eq_refl) as [w3 [L3 [D3 _]]].
    assert (ledDelay (led w3) = FF_LED_WAIT_FOR_EVER).
    { rewrite L3. injection P2 as _ Dp. exact Dp. }
    rewrite (forever_not_due w3) in D3 by assumption. discriminate D3.
Qed.

(** X9: [setBlink] with [waitTime = FF_LED_WAIT_FOR_EVER] blinks once
    only: whatever the clock does, at most [2 * blinkCount] polls ever come
    due, and once they have, the channel shows [minLevel] and no later poll
    changes the object or the pins. *)
Theorem one_shot_blink (n onT offT mn mx : Z)
    (w0 : World) (tr : list FF_LED) (w' : World) :
  1 <= n <= 255 -> mn < mx ->
  run (setBlink n onT offT FF_LED_WAIT_FOR_EVER mn mx w0) tr w' ->
  (length tr <= Z.to_nat (2 * n))%nat /\
  (length tr = Z.to_nat (2 * n) ->
   ledLevel (led w') = mn /\
   forall p, led (polls p w') = led w' /\ pins (polls p w') = pins w').
Proof.
  intros Hn Hl R.
  destruct (setBlink_start n onT offT FF_LED_WAIT_FOR_EVER mn mx w0)
    as [C [P [B _]]]; [lia|].
  destruct (one_shot_run n onT offT mn mx _ tr w' Hn Hl R C P B) as [Le Eq].
  split; [exact Le|]. intros L. specialize (Eq L).
  injection Eq as Lv Dl. split; [exact Lv|].
  intros p. apply forever_polls. exact Dl.
Qed.

(** Two blinks, then nothing: of thirty polls, four come due. *)
Lemma one_shot_blink_witness :
  let w := setBlink 2 100 50 4294967295 0 255
             (begin (power_on (ticking 1000) (FF_LED_new 2 false 0))) in
  length (trace 30 w) = 4%nat /\
  ledLevel (led (polls 30 w)) = 0 /\
  pins (polls 5 (polls 30 w)) = pins (polls 30 w).
Proof.
  intros w.
  destruct (one_shot_blink 2 100 50 0 255
              (begin (power_on (ticking 1000) (FF_LED_new 2 false 0)))
              (trace 30 w) (polls 30 w)) as [_ Eq].
  - lia.
  - lia.
  - apply run_polls.
  - assert (L : length (trace 30 w) = 4%nat) by (vm_compute; reflexivity).
    destruct (Eq L) as [Lv Q]. split; [exact L|]. split; [exact Lv|].
    apply Q.
Defined.

(** ** More on pulsing *)

Lemma crossed_bounds_run (mn mx : Z) w tr w' :
  mx <= mn ->
  run w tr w' -> forall b : bool,
  ledMode (led w) = pulse -> ledMinLevel (led w) = mn ->
  ledMaxLevel (led w) = mx ->
  heading (led w) = (if b then (mn, 1) else (mx, -1)) ->
  Forall (fun o => heading o = (mn, 1) \/ heading o = (mx, -1)) tr /\
  heading (led w') =
    (if xorb b (Nat.odd (length tr)) then (mn, 1) else (mx, -1)).
Proof.
  intros Hx.
  induction 1 as [w | w tr w' E R IH | w tr w' E R IH]; intros b M Mn Mx H.
  - cbn. rewrite xorb_false_r. split; [constructor | exact H].
  - destruct (loop_idle_led w E) as [L _]. rewrite <- L in M, Mn, Mx, H.
    apply IH; assumption.
  - assert (H' : heading (led (loop w)) =
                 (if negb b then (mn, 1) else (mx, -1))).
    { unfold heading in *. destruct b; injection H as Lv Ic.
      - rewrite (pulse_fire_peak w E M) by lia. cbn. rewrite Mx. reflexivity.
      - rewrite (pulse_fire_trough w E M) by lia. cbn. rewrite Mn.
        reflexivity. }
    pose proof (loop_settings w) as S. unfold settings in S.
    injection S as _ _ S3 _ _ _ _ _ S9 S10.
    destruct (IH (negb b)) as [F Hw]; try congruence.
    split.
    + constructor; [|exact F]. rewrite H'. destruct b; auto.
    + rewrite Hw. cbn [length]. rewrite Nat.odd_succ, <- Nat.negb_odd.
      destruct b, (Nat.odd (length tr)); reflexivity.
Qed.

(** X10: [setPulse] with [maxLevel <= minLevel]: there is no sweep.  Every
    due poll is a reversal: the channel jumps from one bound to the other
    (or stays, when they are equal), shows [minLevel] when heading up and
    [maxLevel] when heading down, and the direction flips at each due
    poll. *)
Theorem crossed_bounds_pulse (inc : bool) (upT downT waitT mn mx : Z)
    (w0 : World) (tr : list FF_LED) (w' : World) :
  mx <= mn ->
  run (setPulse inc upT downT waitT mn mx w0) tr w' ->
  Forall (fun o => heading o = (mn, 1) \/ heading o = (mx, -1)) tr /\
  heading (led w') =
    (if xorb inc (Nat.odd (length tr)) then (mn, 1) else (mx, -1)).
Proof.
  intros Hx R.
  destruct (setPulse_start inc upT downT waitT mn mx w0) as [C [P _]].
  destruct C as [M [_ [_ [_ [_ [Mn Mx]]]]]].
  apply (crossed_bounds_run mn mx _ tr w' Hx R inc M Mn Mx).
  unfold heading. unfold pulse_step in P.
  destruct inc; injection P as -> _ ->; reflexivity.
Qed.

(** [setPulse(true, 20, 20, 1000, 200, 50)]: three due polls. *)
Lemma crossed_bounds_pulse_witness :
  let w := setPulse true 20 20 1000 200 50
             (begin (power_on (ticking 2000) (FF_LED_new 2 false 0))) in
  map heading (led w :: trace 3 w) = [(200, 1); (50, -1); (200, 1); (50, -1)] /\
  heading (led (polls 3 w)) = (50, -1).
Proof.
  intros w. split; [vm_compute; reflexivity|].
  destruct (crossed_bounds_pulse true 20 20 1000 200 50
              (begin (power_on (ticking 2000) (FF_LED_new 2 false 0)))
              (trace 3 w) (polls 3 w)) as [_ H].
  - lia.
  - apply run_polls.
  - etransitivity; [exact H | vm_compute; reflexivity].
Defined.

Lemma pulse_run_levels (mn mx : Z) w tr w' :
  0 <= mn -> mn <= mx -> mx <= 255 ->
  run w tr w' ->
  ledMode (led w) = pulse /\ ledMinLevel (led w) = mn /\
  ledMaxLevel (led w) = mx /\ mn <= ledLevel (led w) <= mx /\
  (ledPulseIncrement (led w) = 1 \/ ledPulseIncrement (led w) = -1) ->
  Forall (fun o => mn <= ledLevel o <= mx) tr.
Proof.
  intros H0 H1 H2.
  induction 1 as [w | w tr w' E R IH | w tr w' E R IH]; intros I.
  - constructor.
  - apply IH, pulse_loop_levels; assumption.
  - pose proof (pulse_loop_levels mn mx w H0 H1 H2 I) as I'.
    constructor; [|apply IH; exact I'].
    destruct I' as [_ [_ [_ [L _]]]]. exact L.
Qed.

(** X11: a pulse whose bounds lie strictly inside 0..255 never makes a
    digital write: every call it makes on the pins, the one of [setPulse]
    and one per due poll, is an [analogWrite] on the object's pin with a
    duty cycle in [minLevel .. maxLevel], or in
    [255 - maxLevel .. 255 - minLevel] on a reverted channel. *)
Theorem inner_pulse_is_graduated (inc : bool) (upT downT waitT mn mx : Z)
    (w0 : World) (tr : list FF_LED) (w' : World) :
  0 < mn -> mn <= mx -> mx < 255 ->
  run (setPulse inc upT downT waitT mn mx w0) tr w' ->
  exists calls,
    pins w' = pins w0 ++ calls /\ length calls = S (length tr) /\
    Forall (isDutyOn (ledPin (led w0))
              (if ledReverted (led w0) then 255 - mx else mn)
              (if ledReverted (led w0) then 255 - mn else mx)) calls.
Proof.
  intros H0 H1 H2 R.
  destruct (setPulse_start inc upT downT waitT mn mx w0) as [C [P Pw]].
  set (w := setPulse inc upT downT waitT mn mx w0) in *.
  assert (St : ledPin (led w) = ledPin (led w0) /\
               ledReverted (led w) = ledReverted (led w0)).
  { unfold w, setPulse. cbn. destruct inc; cbn; rewrite setLed_eq;
      split; reflexivity. }
  clearbody w. destruct St as [Sp Sr].
  destruct C as [M [_ [_ [_ [_ [Mn Mx]]]]]].
  assert (I : mn <= ledLevel (led w) <= mx /\
              (ledPulseIncrement (led w) = 1 \/
               ledPulseIncrement (led w) = -1)).
  { unfold pulse_step in P. destruct inc; injection P as -> _ ->;
      split; auto; lia. }
  destruct I as [Il Ii].
  assert (F : Forall (fun o => mn <= ledLevel o <= mx) (led w :: tr)).
  { constructor; [exact Il|].
    apply (pulse_run_levels mn mx w tr w'); try lia; [exact R|].
    conjs; (assumption || lia). }
  exists (map commitCall (led w :: tr)). conjs.
  - rewrite (run_pins w tr w' R) by congruence.
    rewrite Pw, <- app_assoc. cbn [map app].
    replace (levelCall (led w) (ledLevel (led w))) with (commitCall (led w))
      by (unfold levelCall; destruct (led w); reflexivity).
    reflexivity.
  - rewrite length_map. reflexivity.
  - destruct (run_settings w tr w' R) as [_ Fs].
    assert (Fs' : Forall (fun o => settings o = settings (led w)) (led w :: tr))
      by (constructor; [reflexivity | exact Fs]).
    clear Fs R Pw. induction F as [|o l Ho F IH]; [constructor|].
    inversion Fs' as [|? ? So Fl]; subst. cbn [map].
    constructor; [|apply IH; exact Fl].
    rewrite commitCall_mid by lia.
    unfold settings in So. injection So as E1 E2 _ _ _ _ _ _ _ _.
    rewrite E1, E2, Sp, Sr. unfold isDutyOn.
    split; [reflexivity|]. destruct (ledReverted (led w0)); lia.
Qed.

(** A reverted channel pulsing between 10 and 12. *)
Lemma inner_pulse_is_graduated_witness :
  let w0 := begin (power_on (ticking 2000) (FF_LED_new 2 true 0)) in
  let w := setPulse true 20 20 1000 10 12 w0 in
  exists calls,
    pins (polls 6 w) = pins w0 ++ calls /\ length calls = 7%nat /\
    Forall (isDutyOn 2 243 245) calls.
Proof.
  intros w0 w.
  destruct (inner_pulse_is_graduated true 20 20 1000 10 12 w0
              (trace 6 w) (polls 6 w)) as [calls [P [L F]]].
  - lia.
  - lia.
  - lia.
  - apply run_polls.
  - exists calls. split; [exact P|]. split; [|exact F].
    rewrite L. vm_compute. reflexivity.
Defined.

(** ** The fields and their C++ types *)

Lemma to_ulong_range (x : Z) : is_ulong (to_ulong x).
Proof. unfold is_ulong, to_ulong. apply Z.mod_pos_bound. reflexivity. Qed.

Ltac typed_field :=
  solve [ assumption | apply to_uint8_range | apply to_ulong_range
        | unfold is_uint8, is_int8, is_ulong, ULONG_MOD,
            FF_LED_WAIT_FOR_EVER; lia
        | auto ].

Lemma loop_well_typed (w : World) :
  well_typed (led w) /\
  (ledPulseIncrement (led w) = -1 \/ ledPulseIncrement (led w) = 0 \/
   ledPulseIncrement (led w) = 1) ->
  well_typed (led (loop w)) /\
  (ledPulseIncrement (led (loop w)) = -1 \/
   ledPulseIncrement (led (loop w)) = 0 \/
   ledPulseIncrement (led (loop w)) = 1).
Proof.
  unfold loop, well_typed. crush_world w.
  intros [[T1 [T2 [T3 [T4 [T5 [T6 [T7 [T8 [T9 [T10 [T11 T12]]]]]]]]]]] I].
  loop_cases; rewrite ?setLed_eq; cbn; conjs; typed_field.
Qed.

(** X12: in every state reachable through the public interface, each field
    holds a value of its C++ type (the counters and levels in 0..255, the
    delays and the timestamp below 2^32), and the pulse increment is -1, 0
    or 1: apart from the wrap-arounds the code asks for, no assignment
    overflows. *)
Theorem reachable_well_typed (w : World) :
  reachable w ->
  well_typed (led w) /\
  (ledPulseIncrement (led w) = -1 \/ ledPulseIncrement (led w) = 0 \/
   ledPulseIncrement (led w) = 1).
Proof.
  induction 1 as [clk pin rv lvl Hp Hl | w R IH | w R IH | w lvl Hl R IH
                 | w n onT offT waitT mn mx Hn Hon Hoff Hwt Hmn Hmx R IH
                 | w inc upT downT waitT mn mx Hup Hdn Hwt Hmn Hmx R IH].
  - unfold well_typed. cbn. conjs; typed_field.
  - revert IH. unfold begin, well_typed. rewrite setLed_eq. crush_world w.
    intros [[T1 [T2 [T3 [T4 [T5 [T6 [T7 [T8 [T9 [T10 [T11 T12]]]]]]]]]]] I].
    conjs; typed_field.
  - apply loop_well_typed. exact IH.
  - revert IH. unfold setFixed, well_typed. rewrite setLed_eq. crush_world w.
    intros [[T1 [T2 [T3 [T4 [T5 [T6 [T7 [T8 [T9 [T10 [T11 T12]]]]]]]]]]] I].
    conjs; typed_field.
  - revert IH. unfold setBlink, well_typed. crush_world w.
    intros [[T1 [T2 [T3 [T4 [T5 [T6 [T7 [T8 [T9 [T10 [T11 T12]]]]]]]]]]] I].
    destruct (negb (n =? 0)); rewrite setLed_eq; cbn; conjs; typed_field.
  - revert IH. unfold setPulse, well_typed. crush_world w.
    intros [[T1 [T2 [T3 [T4 [T5 [T6 [T7 [T8 [T9 [T10 [T11 T12]]]]]]]]]]] I].
    destruct inc; cbn; rewrite setLed_eq; cbn; conjs; typed_field.
Qed.

(** A channel constructed, started, set blinking, then polled 300 times. *)
Lemma reachable_well_typed_witness :
  let w := polls 300 (setBlink 200 1 1 1 7 7
             (begin (power_on (ticking 5) (FF_LED_new 2 false 0)))) in
  well_typed (led w).
Proof.
  intros w. apply reachable_well_typed.
  assert (P : forall q v, reachable v -> reachable (polls q v)).
  { induction q as [|q IH]; intros v R; [exact R|].
    apply (IH (loop v)), reach_loop, R. }
  apply P, reach_setBlink; unfold is_ulong, is_uint8, ULONG_MOD; try lia.
  apply reach_begin, reach_new; unfold is_uint8; lia.
Defined.

(** ** Timing *)

Lemma loop_fire_stamp (w : World) :
  due w = true -> ledMode (led w) <> fixed ->
  ledLastTimeChanged (led (loop w)) = stamp w.
Proof.
  unfold due, loop, stamp. crush_world w. intros -> M.
  loop_cases; rewrite ?setLed_eq; cbn; try reflexivity; congruence.
Qed.

(** X13: a phase is never cut short.  If the clock does not run backwards
    between the two readings of a poll and less than 2^32 ms passed since the
    last change, then a poll that commits in blink or pulse mode stamps the
    new phase more than the armed delay after the old one began; the
    lateness of the poll is not made up for, the new delay runs from the
    new reading. *)
Theorem phase_never_shortened (w : World) (t0 : Z) :
  ledLastTimeChanged (led w) = to_ulong t0 ->
  0 <= clock w (reads w) - t0 < 4294967296 ->
  clock w (reads w) <= clock w (S (reads w)) ->
  due w = true -> ledMode (led w) <> fixed ->
  clock w (S (reads w)) - t0 > ledDelay (led w) /\
  ledLastTimeChanged (led (loop w)) = to_ulong (clock w (S (reads w))).
Proof.
  intros L R Mono D M. split; [|apply loop_fire_stamp; assumption].
  unfold due in D. rewrite L in D. cbn in D. unfold elapsed, to_ulong in D.
  rewrite Zminus_mod_idemp_l, Zminus_mod_idemp_r in D.
  rewrite Z.mod_small in D by (unfold ULONG_MOD; lia).
  apply Z.gtb_gt in D. lia.
Qed.

(** A 100 ms phase begun at 1000 ms and polled at 1130 ms. *)
Lemma phase_never_shortened_witness :
  let w := mkWorld
             (mkFF_LED 2 false 3 0 0 255 255 false 0 blink 100 50 500 100 1000)
             (fun k => 1130 + Z.of_nat k) 0%nat [digitalWrite 2 255] in
  clock w 1%nat - 1000 > 100 /\
  ledLastTimeChanged (led (loop w)) = 1131.
Proof.
  intros w. destruct (phase_never_shortened w 1000) as [A B].
  - reflexivity.
  - cbn. lia.
  - cbn. lia.
  - vm_compute. reflexivity.
  - cbn. discriminate.
  - split; [exact A | rewrite B; reflexivity].
Defined.

(** X14: the due test only sees the elapsed time modulo 2^32.  A poll made
    [k >= 1] whole turns of the counter, plus at most the armed delay, after
    the last change does nothing, although the delay has long expired. *)
Theorem whole_turns_are_missed (w : World) (t0 k : Z) :
  ledLastTimeChanged (led w) = to_ulong t0 ->
  1 <= k -> ledDelay (led w) < 4294967296 ->
  k * 4294967296 <= clock w (reads w) - t0
    <= k * 4294967296 + ledDelay (led w) ->
  clock w (reads w) - t0 > ledDelay (led w) /\
  led (loop w) = led w /\ pins (loop w) = pins w.
Proof.
  intros L K D R. split; [nia|].
  apply loop_idle_led. unfold due. rewrite L. cbn.
  unfold elapsed, to_ulong.
  rewrite Zminus_mod_idemp_l, Zminus_mod_idemp_r.
  replace (clock w (reads w) - t0)
    with (clock w (reads w) - t0 - k * ULONG_MOD + k * ULONG_MOD) by lia.
  rewrite Z_mod_plus_full.
  rewrite Z.mod_small by (unfold ULONG_MOD; lia).
  rewrite Z.gtb_ltb. apply Z.ltb_ge. unfold ULONG_MOD. lia.
Qed.

(** A 100 ms phase begun at 1000 ms and polled one turn and 40 ms later. *)
Lemma whole_turns_are_missed_witness :
  let w := mkWorld
             (mkFF_LED 2 false 3 0 0 255 255 false 0 blink 100 50 500 100 1000)
             (fun _ => 4294968336) 0%nat [digitalWrite 2 255] in
  clock w 0%nat - 1000 > 100 /\ led (loop w) = led w /\ pins (loop w) = pins w.
Proof.
  intros w. apply (whole_turns_are_missed w 1000 1).
  - reflexivity.
  - lia.
  - cbn. lia.
  - cbn. lia.
Defined.

Lemma phase_ends_after (step : Z) (m : nat) : forall w t0,
  (forall j, 1 <= clock w (S j) - clock w j <= step) ->
  ledDelay (led w) + step < 4294967296 ->
  ledLastTimeChanged (led w) = to_ulong t0 ->
  0 <= clock w (reads w) - t0 <= ledDelay (led w) + step ->
  (Z.to_nat (ledDelay (led w) + 1 - (clock w (reads w) - t0)) <= m)%nat ->
  exists p, (p <= m)%nat /\ due (polls p w) = true /\
            led (polls p w) = led w /\ pins (polls p w) = pins w.
Proof.
  induction m as [|m IH]; intros w t0 Tick Small L R Far.
  - exists 0%nat. split; [lia|]. split; [|split; reflexivity].
    change (polls 0 w) with w.
    unfold due. rewrite L. cbn. unfold elapsed, to_ulong.
    rewrite Zminus_mod_idemp_l, Zminus_mod_idemp_r.
    rewrite Z.mod_small by (unfold ULONG_MOD; lia).
    apply Z.gtb_gt. lia.
  - destruct (due w) eqn:D.
    + exists 0%nat. split; [lia|]. split; [exact D | split; reflexivity].
    + assert (E : clock w (reads w) - t0 <= ledDelay (led w)).
      { unfold due in D. rewrite L in D. cbn in D.
        unfold elapsed, to_ulong in D.
        rewrite Zminus_mod_idemp_l, Zminus_mod_idemp_r in D.
        rewrite Z.mod_small in D by (unfold ULONG_MOD; lia).
        rewrite Z.gtb_ltb in D. apply Z.ltb_ge in D. exact D. }
      pose proof (due_false_loop w D) as Lw.
      pose proof (Tick (reads w)) as T.
      destruct (IH (loop w) t0) as [p [Pm [Pd [Pl Pp]]]];
        try (rewrite Lw; cbn; assumption || lia).
      exists (S p). split; [lia|].
      change (polls (S p) w) with (polls p (loop w)).
      rewrite Pd, Pl, Pp, Lw. conjs; reflexivity.
Qed.

(** X16: a phase with a delay short of the longest one does end.  Under a
    clock that advances by 1 to [step] ms from one reading to the next,
    with [ledDelay + step < 2^32], polling a channel whose phase began at
    most [ledDelay + step] ms ago reaches a due poll, the object and the pins
    being untouched until then. *)
Theorem phase_eventually_due (step : Z) (w : World) (t0 : Z) :
  (forall j, 1 <= clock w (S j) - clock w j <= step) ->
  ledDelay (led w) + step < 4294967296 ->
  ledLastTimeChanged (led w) = to_ulong t0 ->
  0 <= clock w (reads w) - t0 <= ledDelay (led w) + step ->
  exists p, due (polls p w) = true /\
            led (polls p w) = led w /\ pins (polls p w) = pins w.
Proof.
  intros Tick Small L R.
  destruct (phase_ends_after step
              (Z.to_nat (ledDelay (led w) + 1 - (clock w (reads w) - t0)))
              w t0 Tick Small L R (Nat.le_refl _)) as [p [_ H]].
  exists p. exact H.
Qed.

(** A 100 ms phase begun at 1000 ms, polled from 1010 ms on every 7 ms. *)
Lemma phase_eventually_due_witness :
  let w := mkWorld
             (mkFF_LED 2 false 3 0 0 255 255 false 0 blink 100 50 500 100 1000)
             (fun k => 1010 + 7 * Z.of_nat k) 0%nat [digitalWrite 2 255] in
  exists p, due (polls p w) = true /\
            led (polls p w) = led w /\ pins (polls p w) = pins w.
Proof.
  intros w. apply (phase_eventually_due 7 w 1000).
  - intros j. unfold w. cbn [clock]. lia.
  - unfold w. cbn. lia.
  - reflexivity.
  - unfold w. cbn. lia.
Defined.

(** * How long the phases of a blink last *)












